(** * Swing analyzer: pose angles, peak finding, position detection, evaluation

    A shallow embedding of the Python tools under [tools/python-extractors]:

    - [angle_utils.py]: [calculate_angle], [compute_angles],
      [compute_wrist_heights];
    - [annotate_poses.py]: [find_peaks];
    - [test_position_detection.py]: [compute_angles_from_keypoints],
      [PositionDetector] ([__init__], [reset], [detect], [_detect_threshold],
      [_detect_peak]) and [evaluate_algorithm].

    Numbers.  Python floats are modelled by exact numbers: the detector, the
    peak finder and the evaluator compute over the rationals [Q] (and frame
    indices over [Z]), so they run inside Rocq; the trigonometry of
    [angle_utils.py] is modelled over the reals [R], where [sqrt] and [acos]
    live.  Rounding error of the floating-point unit is outside the model.

    Dictionaries are [gmap string _], Python sets are [gset Z], exceptions are
    an error monad [py]. *)

From Stdlib Require Import ZArith QArith Qminmax Reals Psatz Lia List.
From stdpp Require Import base option list gmap strings pretty fin_sets fin_maps.

Local Open Scope string_scope.
Local Open Scope list_scope.

(** ** Python exceptions *)

Inductive exn : Type :=
| KeyError (key : string)
| ZeroDivisionError
| TypeError
| ValueError (msg : string).

Inductive py (A : Type) : Type :=
| Ok (a : A)
| Raise (e : exn).
Arguments Ok {A} a.
Arguments Raise {A} e.

#[global] Instance py_ret : MRet py := λ A a, Ok a.
#[global] Instance py_bind : MBind py := λ A B k m,
  match m with
  | Ok a => k a
  | Raise e => Raise e
  end.

(** [d[key]] on a dictionary: [KeyError] when the key is absent. *)
Definition getitem {V} (d : gmap string V) (key : string) : py V :=
  match d !! key with
  | Some v => Ok v
  | None => Raise (KeyError key)
  end.

(** [enumerate(l)] *)
Definition enumerate {A} (l : list A) : list (nat * A) := imap pair l.

(** [l[-n:]] for [n > 0]: the last [n] elements, the whole list when shorter. *)
Definition take_last {A} (n : nat) (l : list A) : list A :=
  drop (length l - n) l.

(** ** Keypoints and landmark lookup ([angle_utils.py])

    A keypoint is a dictionary; only its keys ["name"], ["x"] and ["y"] are
    ever read.  A missing key is [None].  The coordinate type [C] is [Q] for
    the detector and [R] for the trigonometry. *)

Section Landmarks.
Context {C : Type}.

Record Keypoint : Type := mkKeypoint {
  kp_name : option string;
  kp_x : option C;
  kp_y : option C;
}.

(** [kp["x"]], [kp["y"]] *)
Definition kp_getx (kp : Keypoint) : py C :=
  match kp_x kp with Some v => Ok v | None => Raise (KeyError "x") end.
Definition kp_gety (kp : Keypoint) : py C :=
  match kp_y kp with Some v => Ok v | None => Raise (KeyError "y") end.

(** [kp.get("name", f"kp_{i}")] *)
Definition kp_key (i : nat) (kp : Keypoint) : string :=
  default ("kp_" +:+ pretty i) (kp_name kp).

(** [{kp.get("name", f"kp_{i}"): kp for i, kp in enumerate(keypoints)}]:
    a later keypoint replaces an earlier one of the same name. *)
Definition name_map (keypoints : list Keypoint) : gmap string Keypoint :=
  foldl (λ m ikp, <[kp_key ikp.1 ikp.2 := ikp.2]> m) ∅ (enumerate keypoints).

(** The BlazePose-33 positions of the landmarks the angles use. *)
Definition mediapipe_names : gmap nat string :=
  list_to_map
    [ (11%nat, "left_shoulder"); (12%nat, "right_shoulder");
      (13%nat, "left_elbow"); (14%nat, "right_elbow");
      (15%nat, "left_wrist"); (16%nat, "right_wrist");
      (23%nat, "left_hip"); (24%nat, "right_hip");
      (25%nat, "left_knee"); (26%nat, "right_knee");
      (27%nat, "left_ankle"); (28%nat, "right_ankle") ].

(** The positional fallback of [compute_angles]: fills only the gaps. *)
Definition index_fallback (keypoints : list Keypoint)
    (kp_map : gmap string Keypoint) : gmap string Keypoint :=
  foldl (λ m ikp,
           match mediapipe_names !! ikp.1 with
           | Some name =>
               match m !! name with
               | Some _ => m
               | None => <[name := ikp.2]> m
               end
           | None => m
           end)
        kp_map (enumerate keypoints).

(** The keypoint map [compute_angles] reads its landmarks from. *)
Definition angle_kp_map (keypoints : list Keypoint) : gmap string Keypoint :=
  index_fallback keypoints (name_map keypoints).

(** The seven landmarks of [compute_angles], with both coordinates read. *)
Record Landmarks : Type := mkLandmarks {
  left_shoulder : C * C;
  right_shoulder : C * C;
  left_hip : C * C;
  right_hip : C * C;
  left_wrist : C * C;
  left_knee : C * C;
  left_ankle : C * C;
}.

Definition required_names : list string :=
  [ "left_shoulder"; "right_shoulder"; "left_hip"; "right_hip";
    "left_wrist"; "left_knee"; "left_ankle" ].

Definition point_of (kp : Keypoint) : py (C * C) :=
  x ← kp_getx kp; y ← kp_gety kp; Ok (x, y).

(** The lookups of the [try] block of [compute_angles], in source order, and
    the coordinate reads that follow them. *)
Definition required_landmarks (keypoints : list Keypoint) : py Landmarks :=
  let kp_map := angle_kp_map keypoints in
  ls ← getitem kp_map "left_shoulder";
  rs ← getitem kp_map "right_shoulder";
  lh ← getitem kp_map "left_hip";
  rh ← getitem kp_map "right_hip";
  lw ← getitem kp_map "left_wrist";
  lk ← getitem kp_map "left_knee";
  la ← getitem kp_map "left_ankle";
  ls' ← point_of ls;
  rs' ← point_of rs;
  lh' ← point_of lh;
  rh' ← point_of rh;
  lw' ← point_of lw;
  lk' ← point_of lk;
  la' ← point_of la;
  Ok (mkLandmarks ls' rs' lh' rh' lw' lk' la').

(** The dictionary of the [except] branch of [compute_angles]. *)
Definition degraded_profile (zero : C) : gmap string C :=
  <["spineAngle" := zero]>
    (<["armToSpineAngle" := zero]>
       (<["armToVerticalAngle" := zero]> ∅)).

(** [compute_angles], with the arithmetic of its [try] block as
    [angle_math]: [KeyError], [ZeroDivisionError] and [TypeError] are caught
    and give the degraded profile, any other exception propagates. *)
Definition compute_angles_with (zero : C)
    (angle_math : Landmarks → py (gmap string C))
    (keypoints : list Keypoint) : py (gmap string C) :=
  match lm ← required_landmarks keypoints; angle_math lm with
  | Ok profile => Ok profile
  | Raise (KeyError _) | Raise ZeroDivisionError | Raise TypeError =>
      Ok (degraded_profile zero)
  | Raise e => Raise e
  end.
End Landmarks.

Arguments Keypoint C : clear implicits.
Arguments Landmarks C : clear implicits.

(** ** GeometryKit and the angle profile over the reals ([angle_utils.py]) *)

Module Geometry.
Local Open Scope R_scope.

Definition Vec : Type := R * R.

(** [np.dot] and [np.linalg.norm] on 2-vectors *)
Definition dot (v w : Vec) : R := v.1 * w.1 + v.2 * w.2.
Definition norm (v : Vec) : R := sqrt (v.1 * v.1 + v.2 * v.2).

(** [np.clip(x, lo, hi)] *)
Definition clip (x lo hi : R) : R := Rmin (Rmax x lo) hi.

(** [x / y], raising on a zero divisor as Python's own floats do (numpy
    scalars would give [inf] or [nan] with a warning; the model takes the
    stricter reading, the one the [except ZeroDivisionError] of
    [compute_angles] expects). *)
Definition py_div (x y : R) : py R :=
  if Req_dec_T y 0 then Raise ZeroDivisionError else Ok (x / y).

(** [math.acos], which raises outside [[-1, 1]]. *)
Definition math_acos (x : R) : py R :=
  if Rle_dec (-1) x then
    if Rle_dec x 1 then Ok (acos x)
    else Raise (ValueError "math domain error")
  else Raise (ValueError "math domain error").

(** [math.degrees] *)
Definition degrees (x : R) : R := x * (180 / PI).

(** The literal [1e-6]. *)
Definition eps : R := 1 / 1000000.

(** [math.degrees(math.acos(np.clip(c, -1, 1)))] *)
Definition clipped_angle (c : R) : py R :=
  a ← math_acos (clip c (-1) 1); Ok (degrees a).

Definition calculate_angle (p1 p2 p3 : Vec) : py R :=
  let v1 := (p1.1 - p2.1, p1.2 - p2.2) in
  let v2 := (p3.1 - p2.1, p3.2 - p2.2) in
  cos_angle ← py_div (dot v1 v2) (norm v1 * norm v2 + eps);
  clipped_angle cos_angle.

(** [round(x, 2)]: the nearest multiple of [0.01], ties to the even one. *)
Definition round_half_even (x : R) : Z :=
  let n := Int_part x in
  let f := x - IZR n in
  if Rlt_dec f (1 / 2) then n
  else if Rlt_dec (1 / 2) f then (n + 1)%Z
  else if Z.even n then n else (n + 1)%Z.

Definition round2 (x : R) : R := IZR (round_half_even (x * 100)) / 100.

(** The body of the [try] block of [compute_angles] once the landmarks
    are read. *)
Definition angle_math (lm : Landmarks R) : py (gmap string R) :=
  let ls := left_shoulder lm in
  let rs := right_shoulder lm in
  let lh := left_hip lm in
  let rh := right_hip lm in
  let lw := left_wrist lm in
  let shoulder_mid : Vec := ((ls.1 + rs.1) / 2, (ls.2 + rs.2) / 2) in
  let hip_mid : Vec := ((lh.1 + rh.1) / 2, (lh.2 + rh.2) / 2) in
  let spine_vec : Vec :=
    (shoulder_mid.1 - hip_mid.1, shoulder_mid.2 - hip_mid.2) in
  let vertical : Vec := (0, -1) in
  cos_spine ← py_div (dot spine_vec vertical) (norm spine_vec + eps);
  spine_angle ← clipped_angle cos_spine;
  let arm_vec : Vec := (lw.1 - shoulder_mid.1, lw.2 - shoulder_mid.2) in
  cos_arm_vert ← py_div (dot arm_vec vertical) (norm arm_vec + eps);
  arm_to_vertical ← clipped_angle cos_arm_vert;
  cos_arm_spine ←
    py_div (dot arm_vec spine_vec) (norm arm_vec * norm spine_vec + eps);
  arm_to_spine ← clipped_angle cos_arm_spine;
  hip_angle ← calculate_angle (left_knee lm) lh ls;
  knee_angle ← calculate_angle lh (left_knee lm) (left_ankle lm);
  Ok (<["spineAngle" := round2 spine_angle]>
        (<["armToSpineAngle" := round2 arm_to_spine]>
           (<["armToVerticalAngle" := round2 arm_to_vertical]>
              (<["hipAngle" := round2 hip_angle]>
                 (<["kneeAngle" := round2 knee_angle]> ∅))))).

Definition compute_angles (keypoints : list (Keypoint R)) : py (gmap string R) :=
  compute_angles_with 0 angle_math keypoints.
End Geometry.

(** ** Numbers of the detector: rationals *)

Local Open Scope Q_scope.

(** [x < y] and [x <= y] on floats, as tests. *)
Definition Qltb (x y : Q) : bool := negb (Qle_bool y x).
Definition Qleb (x y : Q) : bool := Qle_bool x y.

(** Truthiness of [d.get(key)]: absent ([None]) and [0] are false. *)
Definition truthy (v : option Q) : bool :=
  match v with
  | Some q => negb (Qeq_bool q 0)
  | None => false
  end.

(** [min(a, b)] of Python: [b] when [b < a], else [a]. *)
Definition py_min (a b : Q) : Q := if Qltb b a then b else a.

(** ** Wrist heights ([angle_utils.py]) *)

Record WristHeights : Type := mkWristHeights {
  leftWristHeight : Q;
  rightWristHeight : Q;
  avgWristHeight : Q;
}.

(** [compute_wrist_heights]: named lookup only (no positional fallback), and
    only the ["y"] coordinates are read. *)
Definition compute_wrist_heights (keypoints : list (Keypoint Q))
    : py (option WristHeights) :=
  let kp_map := name_map keypoints in
  match
    left_shoulder ← getitem kp_map "left_shoulder";
    right_shoulder ← getitem kp_map "right_shoulder";
    left_wrist ← getitem kp_map "left_wrist";
    right_wrist ← getitem kp_map "right_wrist";
    lsy ← kp_gety left_shoulder;
    rsy ← kp_gety right_shoulder;
    let shoulder_mid_y := (lsy + rsy) / 2 in
    lwy ← kp_gety left_wrist;
    let left_height := shoulder_mid_y - lwy in
    rwy ← kp_gety right_wrist;
    let right_height := shoulder_mid_y - rwy in
    Ok (mkWristHeights left_height right_height
          ((left_height + right_height) / 2))
  with
  | Ok info => Ok (Some info)
  | Raise (KeyError _) | Raise TypeError => Ok None
  | Raise e => Raise e
  end.

(** ** Detection data ([test_position_detection.py]) *)

Record DetectionResult : Type := mkDetectionResult {
  frame_index : Z;
  video_time : Q;
  detected_position : option string;
  confidence : Q;
  angles : gmap string Q;
  is_arm_peak : bool;
  is_spine_peak : bool;
}.

Record GroundTruth : Type := mkGroundTruth {
  gt_frame_index : Z;
  gt_position : string;
  gt_notes : string;
}.

Inductive PositionError : Type :=
| false_positive (frame : Z)
| false_negative (frame : Z).

Record AlgorithmMetrics : Type := mkAlgorithmMetrics {
  true_positives : nat;
  false_positives : nat;
  false_negatives : nat;
  total_frames : nat;
  position_errors : list PositionError;
}.

(** ** The position detector *)

Record PositionDetector : Type := mkPositionDetector {
  algorithm : string;
  prev_arm_angle : Q;
  prev_spine_angle : Q;
  arm_angle_history : list Q;
  spine_angle_history : list Q;
  direction : string;
  last_top_frame : Z;
  last_bottom_frame : Z;
}.

Definition reset (self : PositionDetector) : PositionDetector :=
  {| algorithm := algorithm self;
     prev_arm_angle := 0;
     prev_spine_angle := 0;
     arm_angle_history := [];
     spine_angle_history := [];
     direction := "unknown";
     last_top_frame := -999;
     last_bottom_frame := -999 |}.

(** [PositionDetector(algorithm)]: stores the selector and resets; nothing is
    checked here.  The fields other than [algorithm] do not exist before
    [reset] assigns them. *)
Definition __init__ (algorithm : string) : py PositionDetector :=
  Ok (reset (mkPositionDetector algorithm 0 0 [] [] "" 0 0)).

(** [angles.get("spine", 0)] *)
Definition spine_of (angles : gmap string Q) : Q :=
  default 0 (angles !! "spine").

(** [angles.get("avgWristHeight", angles.get("wristHeight", 0))] *)
Definition arm_height_of (angles : gmap string Q) : Q :=
  default (default 0 (angles !! "wristHeight")) (angles !! "avgWristHeight").

Definition _detect_threshold (self : PositionDetector) (frame_index : Z)
    (video_time : Q) (angles : gmap string Q) : DetectionResult :=
  let spine := spine_of angles in
  let '(position, confidence) :=
    if Qltb spine 25 then (Some "top", 1 - spine / 25)
    else if Qltb 60 spine then (Some "bottom", py_min 1 ((spine - 60) / 30))
    else if Qltb spine 45 then (Some "release", 0.5)
    else (Some "connect", 0.5) in
  mkDetectionResult frame_index video_time position confidence angles
    false false.

(** [(h[-3], h[-2], h[-1])] when [len(h) >= 3]. *)
Definition window3 (h : list Q) : option (Q * Q * Q) :=
  match rev h with
  | curr :: prev1 :: prev2 :: _ => Some (prev2, prev1, curr)
  | _ => None
  end.

(** [prev1 > prev2 and prev1 >= curr] *)
Definition local_max (w : Q * Q * Q) : bool :=
  let '(prev2, prev1, curr) := w in Qltb prev2 prev1 && Qleb curr prev1.

Definition _detect_peak (self : PositionDetector) (frame_index : Z)
    (video_time : Q) (angles : gmap string Q)
    : PositionDetector * DetectionResult :=
  let arm_height := arm_height_of angles in
  let spine := spine_of angles in
  let arm_h := arm_angle_history self ++ [arm_height] in
  let spine_h := spine_angle_history self ++ [spine] in
  let window := 5%nat in
  let '(arm_h, spine_h) :=
    if (window * 2 <? length arm_h)%nat
    then (take_last (window * 2) arm_h, take_last (window * 2) spine_h)
    else (arm_h, spine_h) in
  (* arm peak: top *)
  let '(position, confidence, arm_peak, last_top) :=
    match window3 arm_h with
    | Some w =>
        if local_max w then
          if (10 <? frame_index - last_top_frame self)%Z
          then (Some "top", 0.9, true, frame_index)
          else (None, 0, true, last_top_frame self)
        else (None, 0, false, last_top_frame self)
    | None => (None, 0, false, last_top_frame self)
    end in
  (* spine peak: bottom *)
  let '(position, confidence, spine_peak, last_bottom) :=
    match window3 spine_h with
    | Some (prev2, prev1, curr) =>
        if local_max (prev2, prev1, curr) && Qltb 50 prev1 then
          if (10 <? frame_index - last_bottom_frame self)%Z
          then (Some "bottom", 0.9, true, frame_index)
          else (position, confidence, true, last_bottom_frame self)
        else (position, confidence, false, last_bottom_frame self)
    | None => (position, confidence, false, last_bottom_frame self)
    end in
  (* neither: slope of the spine angle *)
  let '(position, confidence) :=
    match position with
    | None =>
        if (2 <=? length spine_h)%nat then
          if Qltb (prev_spine_angle self + 2) spine then (Some "connect", 0.5)
          else if Qltb spine (prev_spine_angle self - 2)
               then (Some "release", 0.5)
               else (position, confidence)
        else (position, confidence)
    | Some _ => (position, confidence)
    end in
  ({| algorithm := algorithm self;
      prev_arm_angle := arm_height;
      prev_spine_angle := spine;
      arm_angle_history := arm_h;
      spine_angle_history := spine_h;
      direction := direction self;
      last_top_frame := last_top;
      last_bottom_frame := last_bottom |},
   mkDetectionResult frame_index video_time position confidence angles
     arm_peak spine_peak).

(** [_detect_peak] over a sequence of frames [(frame_index, video_time,
    angles)], collecting the results. *)
Fixpoint run_peak (self : PositionDetector)
    (frames : list (Z * Q * gmap string Q))
    : PositionDetector * list DetectionResult :=
  match frames with
  | [] => (self, [])
  | (i, t, a) :: rest =>
      let '(self', r) := _detect_peak self i t a in
      let '(self'', rs) := run_peak self' rest in
      (self'', r :: rs)
  end.

Section Detect.
(** The arithmetic of [compute_angles] on rational landmarks: square
    roots and inverse cosines have no rational model, so the detector takes
    it as given ([Geometry.angle_math] is its real-number counterpart,
    which never raises). *)
Variable angle_math : Landmarks Q → gmap string Q.

Definition compute_standard_angles (keypoints : list (Keypoint Q))
    : py (gmap string Q) :=
  compute_angles_with 0 (λ lm, Ok (angle_math lm)) keypoints.

(** [if std.get(key): angles[name] = std[key]] *)
Definition copy_if_truthy (std : gmap string Q) (key name : string)
    (angles : gmap string Q) : gmap string Q :=
  if truthy (std !! key)
  then <[name := default 0 (std !! key)]> angles
  else angles.

Definition compute_angles_from_keypoints (keypoints : list (Keypoint Q))
    : py (gmap string Q) :=
  let angles : gmap string Q := ∅ in
  std_angles ← compute_standard_angles keypoints;
  let angles := copy_if_truthy std_angles "spineAngle" "spine" angles in
  let angles :=
    copy_if_truthy std_angles "armToVerticalAngle" "armToVertical" angles in
  let angles := copy_if_truthy std_angles "hipAngle" "hip" angles in
  wrist_info ← compute_wrist_heights keypoints;
  match wrist_info with
  | Some info =>
      Ok (<["avgWristHeight" := avgWristHeight info]>
            (<["wristHeight" := leftWristHeight info]> angles))
  | None => Ok angles
  end.

Definition detect (self : PositionDetector) (frame_index : Z)
    (video_time : Q) (keypoints : list (Keypoint Q))
    : py (PositionDetector * DetectionResult) :=
  angles ← compute_angles_from_keypoints keypoints;
  if String.eqb (algorithm self) "threshold" then
    Ok (self, _detect_threshold self frame_index video_time angles)
  else if String.eqb (algorithm self) "peak" then
    Ok (_detect_peak self frame_index video_time angles)
  else Raise (ValueError ("Unknown algorithm: " +:+ algorithm self)).

(** [detect] called once per frame, in order; stops at the first
    exception. *)
Fixpoint detect_all (self : PositionDetector)
    (frames : list (Z * Q * list (Keypoint Q)))
    : py (PositionDetector * list DetectionResult) :=
  match frames with
  | [] => Ok (self, [])
  | (i, t, kps) :: rest =>
      sr ← detect self i t kps;
      srs ← detect_all sr.1 rest;
      Ok (srs.1, sr.2 :: srs.2)
  end.
End Detect.

(** ** The evaluator ([evaluate_algorithm]) *)

(** [{gt.frame_index for gt in ground_truth if gt.position == position}] *)
Definition gt_frames_of (ground_truth : list GroundTruth) (position : string)
    : gset Z :=
  list_to_set
    (gt_frame_index <$> filter (λ gt, gt_position gt = position) ground_truth).

(** [{r.frame_index for r in results if r.detected_position == position}] *)
Definition detected_frames_of (results : list DetectionResult)
    (position : string) : gset Z :=
  list_to_set
    (frame_index <$>
       filter (λ r, detected_position r = Some position) results).

(** [abs(detected - gt) <= 2] *)
Definition within_tolerance (detected gt : Z) : bool :=
  (Z.abs (detected - gt) <=? 2)%Z.

(** The inner loop of the first pass: leaves at the first match. *)
Fixpoint match_any (detected : Z) (gt_frames : list Z) : bool :=
  match gt_frames with
  | [] => false
  | gt :: rest =>
      if within_tolerance detected gt then true else match_any detected rest
  end.

(** One iteration of [for detected in detected_frames]. *)
Definition count_detected (gt_frames : list Z) (metrics : AlgorithmMetrics)
    (detected : Z) : AlgorithmMetrics :=
  if match_any detected gt_frames then
    {| true_positives := true_positives metrics + 1;
       false_positives := false_positives metrics;
       false_negatives := false_negatives metrics;
       total_frames := total_frames metrics;
       position_errors := position_errors metrics |}
  else
    {| true_positives := true_positives metrics;
       false_positives := false_positives metrics + 1;
       false_negatives := false_negatives metrics;
       total_frames := total_frames metrics;
       position_errors := position_errors metrics ++ [false_positive detected] |}.

(** One iteration of [for gt in gt_frames]. *)
Definition count_missed (detected_frames : list Z) (metrics : AlgorithmMetrics)
    (gt : Z) : AlgorithmMetrics :=
  if existsb (λ detected, within_tolerance detected gt) detected_frames then
    metrics
  else
    {| true_positives := true_positives metrics;
       false_positives := false_positives metrics;
       false_negatives := false_negatives metrics + 1;
       total_frames := total_frames metrics;
       position_errors := position_errors metrics ++ [false_negative gt] |}.

(** The two sets are iterated in the order of [elements]; the counters do
    not depend on that order. *)
Definition evaluate_algorithm (results : list DetectionResult)
    (ground_truth : list GroundTruth) (position : string) : AlgorithmMetrics :=
  let metrics := mkAlgorithmMetrics 0 0 0 (length results) [] in
  let gt_frames := gt_frames_of ground_truth position in
  let detected_frames := detected_frames_of results position in
  let metrics :=
    foldl (count_detected (elements gt_frames)) metrics
      (elements detected_frames) in
  foldl (count_missed (elements detected_frames)) metrics
    (elements gt_frames).

(** ** The peak finder ([annotate_poses.py]) *)

(** [values[i] > values[i-1] and values[i] >= values[i+1]] *)
Definition is_local_maximum (values : list Q) (i : nat) : bool :=
  match values !! (i - 1)%nat, values !! i, values !! (i + 1)%nat with
  | Some before, Some here, Some after => Qltb before here && Qleb after here
  | _, _, _ => false
  end.

(** [threshold is not None and values[i] < threshold] *)
Definition below_threshold (threshold : option Q) (values : list Q) (i : nat)
    : bool :=
  match threshold, values !! i with
  | Some t, Some here => Qltb here t
  | _, _ => false
  end.

(** The loop body, on the loop state [(peaks, last_peak)]. *)
Definition find_peaks_step (values : list Q) (min_distance : Z)
    (threshold : option Q) (st : list nat * Z) (i : nat) : list nat * Z :=
  if is_local_maximum values i then
    if below_threshold threshold values i then st
    else if (min_distance <=? Z.of_nat i - st.2)%Z
         then (st.1 ++ [i], Z.of_nat i)
         else st
  else st.

(** The loop state after the first [n] iterations of
    [for i in range(1, len(values) - 1)]. *)
Definition find_peaks_loop (values : list Q) (min_distance : Z)
    (threshold : option Q) (n : nat) : list nat * Z :=
  foldl (find_peaks_step values min_distance threshold)
    ([], (- min_distance)%Z) (seq 1 n).

Definition find_peaks (values : list Q) (min_distance : Z)
    (threshold : option Q) : list nat :=
  if (length values <? 3)%nat then []
  else (find_peaks_loop values min_distance threshold (length values - 2)).1.

(** The index accepted last before [i] among [peaks], as the spacing test
    sees it: [-min_distance] when there is none. *)
Definition last_accepted_before (min_distance : Z) (peaks : list nat)
    (i : nat) : Z :=
  from_option Z.of_nat (- min_distance)%Z
    (last (filter (λ p, (p < i)%nat) peaks)).

(** The three tests that let the loop body append [i]. *)
Definition accepts (values : list Q) (min_distance : Z)
    (threshold : option Q) (last_peak : Z) (i : nat) : bool :=
  is_local_maximum values i && negb (below_threshold threshold values i)
  && (min_distance <=? Z.of_nat i - last_peak)%Z.

(** The loop state of [find_peaks] after [n] iterations: the accepted
    indices lie in [1..n], increase, are spaced by [min_distance], and
    [last_peak] is the last of them. *)
Record loop_inv (min_distance : Z) (n : nat) (st : list nat * Z) : Prop := {
  inv_range : ∀ a, a ∈ st.1 → (1 ≤ a ≤ n)%nat;
  inv_last : st.2 = from_option Z.of_nat (- min_distance)%Z (last st.1);
  inv_spaced : ∀ j k a b,
    (j < k)%nat → st.1 !! j = Some a → st.1 !! k = Some b →
    (a < b)%nat ∧ (min_distance ≤ Z.of_nat b - Z.of_nat a)%Z;
}.

(** ** The histories the peak algorithm keeps *)

(** [h] after the truncation of [_detect_peak]: cut to its last ten
    entries when the arm series [arm_h] has more than ten. *)
Definition kept (arm_h : list Q) (h : list Q) : list Q :=
  if (10 <? length arm_h)%nat then take_last 10 h else h.

(** ** Inputs of the specification's test cases *)

(** A detector as [PositionDetector(algorithm)] leaves it. *)
Definition fresh_detector (algorithm : string) : PositionDetector :=
  reset (mkPositionDetector algorithm 0 0 [] [] "" 0 0).

(** One frame of a test sequence: frame index, video time [i / 30], and an
    angle profile with the given wrist height and spine angle. *)
Definition sample (i : Z) (arm spine : Q) : Z * Q * gmap string Q :=
  (i, inject_Z i / 30,
   <["avgWristHeight" := arm]>
     (<["wristHeight" := arm]> (<["spine" := spine]> ∅))).

(** The bump [0, 5, 10, 5, 0] on frames 0..4 and again on frames 5..9, the
    spine held at 70. *)
Definition two_bumps : list (Z * Q * gmap string Q) :=
  [ sample 0 0 70; sample 1 5 70; sample 2 10 70; sample 3 5 70;
    sample 4 0 70; sample 5 0 70; sample 6 5 70; sample 7 10 70;
    sample 8 5 70; sample 9 0 70 ].

(** Two arm peaks, at frames 1 and 11, reported at frames 2 and 12: exactly
    ten frames apart. *)
Definition peaks_ten_apart : list (Z * Q * gmap string Q) :=
  [ sample 0 0 70; sample 1 5 70; sample 2 0 70; sample 3 0 70;
    sample 4 0 70; sample 5 0 70; sample 6 0 70; sample 7 0 70;
    sample 8 0 70; sample 9 0 70; sample 10 0 70; sample 11 5 70;
    sample 12 0 70 ].

(** An arm peak and a spine peak above 50 on the same frame. *)
Definition arm_and_spine_peak : list (Z * Q * gmap string Q) :=
  [ sample 0 0 40; sample 1 5 70; sample 2 0 40 ].

(** [n] frames, numbered from 0, in which no keypoint was found. *)
Definition blank_frames (n : nat) : list (Z * Q * list (Keypoint Q)) :=
  (λ k, (Z.of_nat k, inject_Z (Z.of_nat k) / 30, [])) <$> seq 0 n.

(** What a test reads off a result. *)
Definition summary (r : DetectionResult)
    : Z * option string * Q * bool * bool :=
  (frame_index r, detected_position r, confidence r, is_arm_peak r,
   is_spine_peak r).

(** A pose with the landmarks named: the shoulders at screen height 0 and
    both wrists [h] above them (screen [y] decreases upwards). *)
Definition pose (h : Q) : list (Keypoint Q) :=
  [ mkKeypoint (Some "left_shoulder") (Some 0) (Some 0);
    mkKeypoint (Some "right_shoulder") (Some 1) (Some 0);
    mkKeypoint (Some "left_wrist") (Some 0) (Some (- h));
    mkKeypoint (Some "right_wrist") (Some 1) (Some (- h));
    mkKeypoint (Some "left_hip") (Some 0) (Some 2);
    mkKeypoint (Some "right_hip") (Some 1) (Some 2);
    mkKeypoint (Some "left_knee") (Some 0) (Some 3);
    mkKeypoint (Some "left_ankle") (Some 0) (Some 4) ].

(** The spine angle held at 70 whatever the landmarks, as the test of the
    peak algorithm asks. *)
Definition spine_held_at_70 (lm : Landmarks Q) : gmap string Q :=
  <["spineAngle" := 70]> ∅.

(** [two_bumps] as keypoints. *)
Definition two_bumps_poses : list (Z * Q * list (Keypoint Q)) :=
  [ (0%Z, 0, pose 0); (1%Z, 1 / 30, pose 5); (2%Z, 2 / 30, pose 10);
    (3%Z, 3 / 30, pose 5); (4%Z, 4 / 30, pose 0); (5%Z, 5 / 30, pose 0);
    (6%Z, 6 / 30, pose 5); (7%Z, 7 / 30, pose 10); (8%Z, 8 / 30, pose 5);
    (9%Z, 9 / 30, pose 0) ].

(** The summaries of a run of [detect], nothing when it raised. *)
Definition summaries (run : py (PositionDetector * list DetectionResult))
    : option (list (Z * option string * Q * bool * bool)) :=
  match run with
  | Ok (_, rs) => Some (summary <$> rs)
  | Raise _ => None
  end.

(** A detection and an annotation of the evaluator's tests. *)
Definition detection (i : Z) (position : option string) : DetectionResult :=
  mkDetectionResult i (inject_Z i / 30) position 0.9 ∅ false false.
Definition annotation (i : Z) (position : string) : GroundTruth :=
  mkGroundTruth i position "".

(** What a test reads off the metrics. *)
Definition counts (m : AlgorithmMetrics) : nat * nat * nat :=
  (true_positives m, false_positives m, false_negatives m).

(** [x] has a frame of [frames] within two frames of it. *)
Definition near (frames : gset Z) (x : Z) : Prop :=
  set_Exists (λ y, (Z.abs (x - y) ≤ 2)%Z) frames.

#[global] Instance near_dec frames x : Decision (near frames x).
Proof. unfold near. apply _. Defined.

(** ** Smoothing and valleys ([annotate_poses.py]) *)

(** [l[start:stop]]: a negative bound counts from the end, and both are
    clamped to the list. *)
Definition py_slice {A} (l : list A) (start stop : Z) : list A :=
  let n := Z.of_nat (length l) in
  let clamp k := if (k <? 0)%Z then Z.max 0 (k + n) else Z.min k n in
  take (Z.to_nat (clamp stop - clamp start)) (drop (Z.to_nat (clamp start)) l).

(** [sum(l)]: from 0, left to right. *)
Definition Qsum (l : list Q) : Q := foldl Qplus 0 l.

(** [x / d] for an integer [d], raising on 0. *)
Definition Qdiv_int (x : Q) (d : Z) : py Q :=
  if (d =? 0)%Z then Raise ZeroDivisionError else Ok (x / inject_Z d).

(** The body of the loop of [smooth] at index [i]; [window // 2] is the
    floor division of Python. *)
Definition smooth_at (values : list Q) (window : Z) (i : Z) : py Q :=
  let start := Z.max 0 (i - window / 2) in
  let stop := Z.min (Z.of_nat (length values)) (i + window / 2 + 1) in
  Qdiv_int (Qsum (py_slice values start stop)) (stop - start).

Fixpoint smooth_loop (values : list Q) (window : Z) (indices : list nat)
    : py (list Q) :=
  match indices with
  | [] => Ok []
  | i :: rest =>
      x ← smooth_at values window (Z.of_nat i);
      result ← smooth_loop values window rest;
      Ok (x :: result)
  end.

Definition smooth (values : list Q) (window : Z) : py (list Q) :=
  smooth_loop values window (seq 0 (length values)).

(** [find_valleys]: the peaks of the negated series, with the negated
    threshold. *)
Definition find_valleys (values : list Q) (min_distance : Z)
    (threshold : option Q) : list nat :=
  let inverted := Qopp <$> values in
  let inv_threshold := Qopp <$> threshold in
  find_peaks inverted min_distance inv_threshold.

(** ** The ratios of [AlgorithmMetrics] *)

(** [a / b] on numbers, raising on a zero divisor. *)
Definition Qdiv_py (x y : Q) : py Q :=
  if Qeq_bool y 0 then Raise ZeroDivisionError else Ok (x / y).

(** A counter as a number. *)
Definition natQ (n : nat) : Q := inject_Z (Z.of_nat n).

Definition precision (self : AlgorithmMetrics) : py Q :=
  if (true_positives self + false_positives self =? 0)%nat then Ok 0
  else Qdiv_py (natQ (true_positives self))
         (natQ (true_positives self + false_positives self)).

Definition recall (self : AlgorithmMetrics) : py Q :=
  if (true_positives self + false_negatives self =? 0)%nat then Ok 0
  else Qdiv_py (natQ (true_positives self))
         (natQ (true_positives self + false_negatives self)).

(** [f1] reads the two properties again for each use. *)
Definition f1 (self : AlgorithmMetrics) : py Q :=
  p ← precision self;
  r ← recall self;
  if Qeq_bool (p + r) 0 then Ok 0
  else
    p1 ← precision self;
    r1 ← recall self;
    p2 ← precision self;
    r2 ← recall self;
    Qdiv_py (2 * (p1 * r1)) (p2 + r2).

(** ** Landmark lookup, step by step *)

(** One step of the positional fallback of [compute_angles]: the body of
    its second loop. *)
Definition fallback_step {C : Type} (m : gmap string (Keypoint C))
    (ikp : nat * Keypoint C) : gmap string (Keypoint C) :=
  match mediapipe_names !! ikp.1 with
  | Some name =>
      match m !! name with
      | Some _ => m
      | None => <[name := ikp.2]> m
      end
  | None => m
  end.

(** The four landmarks [compute_wrist_heights] reads. *)
Definition wrist_names : list string :=
  [ "left_shoulder"; "right_shoulder"; "left_wrist"; "right_wrist" ].

(** The [y] coordinate of a named keypoint, when both exist. *)
Definition named_y (keypoints : list (Keypoint Q)) (name : string)
    : option Q :=
  name_map keypoints !! name ≫= kp_y.

(** * Properties *)

#[local] Set Warnings "-clear-no-such-hyp".

(** ** Comparisons on rationals *)

Lemma Qltb_lt (x y : Q) : Qltb x y = true ↔ x < y.
Proof.
  unfold Qltb. rewrite negb_true_iff, <- not_true_iff_false, Qle_bool_iff.
  split; [apply Qnot_le_lt | apply Qlt_not_le].
Qed.

Lemma Qltb_ge (x y : Q) : Qltb x y = false ↔ y <= x.
Proof.
  unfold Qltb. rewrite negb_false_iff. apply Qle_bool_iff.
Qed.

Lemma Qleb_le (x y : Q) : Qleb x y = true ↔ x <= y.
Proof. apply Qle_bool_iff. Qed.

#[global] Instance Qltb_proper : Proper (Qeq ==> Qeq ==> eq) Qltb.
Proof. intros x x' Hx y y' Hy. unfold Qltb. by rewrite Hx, Hy. Qed.

Lemma py_min_Qmin (a b : Q) : py_min a b == Qmin a b.
Proof.
  unfold py_min. destruct (Qltb b a) eqn:E.
  - apply Qltb_lt in E. symmetry. apply Q.min_r. by apply Qlt_le_weak.
  - apply Qltb_ge in E. symmetry. by apply Q.min_l.
Qed.

(** ** The threshold algorithm *)

Lemma threshold_fields self i t a :
  frame_index (_detect_threshold self i t a) = i
  ∧ video_time (_detect_threshold self i t a) = t
  ∧ angles (_detect_threshold self i t a) = a
  ∧ is_arm_peak (_detect_threshold self i t a) = false
  ∧ is_spine_peak (_detect_threshold self i t a) = false.
Proof.
  unfold _detect_threshold.
  by repeat (destruct (Qltb _ _)).
Qed.

(** C4.  The threshold algorithm labels a frame by its spine angle [s] alone:
    [s < 25] is "top" with confidence [1 - s/25]; otherwise [s > 60] is
    "bottom" with confidence [min(1, (s-60)/30)]; otherwise [s < 45] is
    "release" and [45 <= s <= 60] is "connect", both with confidence 0.5.
    So 10 gives ("top", 0.6), 75 gives ("bottom", 0.5), 50 and 45 give
    ("connect", 0.5). *)
Theorem threshold_labels (self : PositionDetector) (i : Z) (t : Q)
    (a : gmap string Q) :
  let s := spine_of a in
  let r := _detect_threshold self i t a in
  (s < 25 → detected_position r = Some "top" ∧ confidence r == 1 - s / 25)
  ∧ (60 < s →
     detected_position r = Some "bottom"
     ∧ confidence r == Qmin 1 ((s - 60) / 30))
  ∧ (25 <= s → s < 45 →
     detected_position r = Some "release" ∧ confidence r == 0.5)
  ∧ (45 <= s → s <= 60 →
     detected_position r = Some "connect" ∧ confidence r == 0.5)
  ∧ (s == 10 → detected_position r = Some "top" ∧ confidence r == 0.6)
  ∧ (s == 75 → detected_position r = Some "bottom" ∧ confidence r == 0.5)
  ∧ (s == 50 → detected_position r = Some "connect" ∧ confidence r == 0.5)
  ∧ (s == 45 → detected_position r = Some "connect" ∧ confidence r == 0.5).
Proof.
  intros s r.
  assert (Htop : s < 25 →
            detected_position r = Some "top" ∧ confidence r == 1 - s / 25).
  { intros H. subst r. unfold _detect_threshold. fold s.
    apply Qltb_lt in H. rewrite H. by split. }
  assert (Hbot : 60 < s →
            detected_position r = Some "bottom"
            ∧ confidence r == Qmin 1 ((s - 60) / 30)).
  { intros H. subst r. unfold _detect_threshold. fold s.
    assert (Qltb s 25 = false) as -> by (apply Qltb_ge; lra).
    apply Qltb_lt in H. rewrite H. split; [done | apply py_min_Qmin]. }
  assert (Hrel : 25 <= s → s < 45 →
            detected_position r = Some "release" ∧ confidence r == 0.5).
  { intros H1 H2. subst r. unfold _detect_threshold. fold s.
    assert (Qltb s 25 = false) as -> by (apply Qltb_ge; lra).
    assert (Qltb 60 s = false) as -> by (apply Qltb_ge; lra).
    apply Qltb_lt in H2. rewrite H2. by split. }
  assert (Hconn : 45 <= s → s <= 60 →
            detected_position r = Some "connect" ∧ confidence r == 0.5).
  { intros H1 H2. subst r. unfold _detect_threshold. fold s.
    assert (Qltb s 25 = false) as -> by (apply Qltb_ge; lra).
    assert (Qltb 60 s = false) as -> by (apply Qltb_ge; lra).
    assert (Qltb s 45 = false) as -> by (apply Qltb_ge; lra).
    by split. }
  split; [exact Htop |]. split; [exact Hbot |].
  split; [exact Hrel |]. split; [exact Hconn |].
  split; [| split; [| split]].
  - intros H. destruct Htop as [Hp Hc]; [lra |]. split; [done |].
    rewrite Hc, H. by vm_compute.
  - intros H. destruct Hbot as [Hp Hc]; [lra |]. split; [done |].
    rewrite Hc, H. by vm_compute.
  - intros H. apply Hconn; lra.
  - intros H. apply Hconn; lra.
Qed.

(** ** The peak algorithm *)

Lemma local_max_spec prev2 prev1 curr :
  local_max (prev2, prev1, curr) = true ↔ prev2 < prev1 ∧ curr <= prev1.
Proof.
  unfold local_max. by rewrite andb_true_iff, Qltb_lt, Qleb_le.
Qed.

Lemma peak_histories self i t a :
  let arm_h := arm_angle_history self ++ [arm_height_of a] in
  let spine_h := spine_angle_history self ++ [spine_of a] in
  arm_angle_history (_detect_peak self i t a).1 = kept arm_h arm_h
  ∧ spine_angle_history (_detect_peak self i t a).1 = kept arm_h spine_h.
Proof.
  intros arm_h spine_h. unfold _detect_peak, kept. fold arm_h spine_h.
  change (5 * 2)%nat with 10%nat.
  destruct (10 <? length arm_h)%nat; repeat case_match; done.
Qed.

Lemma peak_result_fields self i t a :
  frame_index (_detect_peak self i t a).2 = i
  ∧ video_time (_detect_peak self i t a).2 = t
  ∧ angles (_detect_peak self i t a).2 = a
  ∧ algorithm (_detect_peak self i t a).1 = algorithm self.
Proof. unfold _detect_peak. repeat case_match; done. Qed.

(** C1, as the specification states it, fails: on the bump [0,5,10,5,0]
    (frames 0..4, spine 70) the result of frame 2 has no arm-peak flag and no
    label.  The window test looks at the sample before the current one, so
    the maximum at frame 2 is seen at frame 3. *)
Lemma peak_bump_frame2_not_flagged :
  __init__ "peak" = Ok (fresh_detector "peak")
  ∧ summary <$> (run_peak (fresh_detector "peak") two_bumps).2 !! 2%nat
    = Some (2%Z, None, 0, false, false)
  ∧ (summaries
       (detect_all spine_held_at_70 (fresh_detector "peak") two_bumps_poses)
     ≫= (.!! 2%nat))
    = Some (2%Z, None, 0, false, false).
Proof. split; [done | by vm_compute]. Qed.

(** C1, amended.  A fresh peak detector fed the bump [0,5,10,5,0] on frames
    0..4 (spine 70) flags the arm peak and labels "top" with confidence 0.9
    at frame 3, the frame after the maximum, and nowhere else; a second
    identical bump on frames 5..9 is flagged at frame 8, five frames after
    the accepted top, without a label.  [detect] on keypoints with these
    wrist heights gives the same results. *)
Theorem peak_bump_reported_one_frame_late :
  __init__ "peak" = Ok (fresh_detector "peak")
  ∧ summary <$> (run_peak (fresh_detector "peak") two_bumps).2
    = [ (0%Z, None, 0, false, false); (1%Z, None, 0, false, false);
        (2%Z, None, 0, false, false); (3%Z, Some "top", 0.9, true, false);
        (4%Z, None, 0, false, false); (5%Z, None, 0, false, false);
        (6%Z, None, 0, false, false); (7%Z, None, 0, false, false);
        (8%Z, None, 0, true, false); (9%Z, None, 0, false, false) ]
  ∧ summaries
      (detect_all spine_held_at_70 (fresh_detector "peak") two_bumps_poses)
    = Some (summary <$> (run_peak (fresh_detector "peak") two_bumps).2).
Proof. split; [done | by vm_compute]. Qed.

(** C3, as the specification states it, fails twice.  With the last top
    accepted at frame 2, an arm peak reported at frame 12 is exactly 10 frames
    later and gets no label: the gate is [frame_index - last_top_frame > 10].
    And an accepted spine peak on the same frame replaces "top" by
    "bottom", however long ago the last top was. *)
Lemma top_withheld_at_ten_frames :
  let before := (run_peak (fresh_detector "peak") (take 12 peaks_ten_apart)).1 in
  let out := _detect_peak before 12 (inject_Z 12 / 30) (sample 12 0 70).2 in
  (window3 (arm_angle_history out.1) = Some (0, 5, 0)
   ∧ (12 - last_top_frame before = 10)%Z
   ∧ is_arm_peak out.2 = true
   ∧ detected_position out.2 = None)
  ∧ summary <$> (run_peak (fresh_detector "peak") arm_and_spine_peak).2 !! 2%nat
    = Some (2%Z, Some "bottom", 0.9, true, true).
Proof. by vm_compute. Qed.

(** C3, amended.  When the window [(prev2, prev1, curr)] of the arm history
    is a local maximum ([prev1 > prev2] and [prev1 >= curr]) the result has
    [is_arm_peak = true].  The label is "top" exactly when more than 10
    frames have passed since the last accepted top
    ([frame_index - last_top_frame > 10]) and no "bottom" is accepted on the
    same frame; it then has confidence 0.9 and the frame becomes the last
    accepted top.  With 10 frames or fewer the label is not "top" and the
    last accepted top is unchanged.  "bottom" is accepted exactly when the
    spine window is a local maximum above 50 more than 10 frames after the
    last bottom. *)
Theorem arm_peak_flag_and_refractory_gate (self : PositionDetector) (i : Z)
    (t : Q) (a : gmap string Q) (prev2 prev1 curr : Q) :
  let out := _detect_peak self i t a in
  window3 (arm_angle_history out.1) = Some (prev2, prev1, curr) →
  prev2 < prev1 → curr <= prev1 →
  is_arm_peak out.2 = true
  ∧ (detected_position out.2 = Some "top" ↔
     (10 < i - last_top_frame self)%Z
     ∧ detected_position out.2 ≠ Some "bottom")
  ∧ (detected_position out.2 = Some "top" →
     confidence out.2 = 0.9 ∧ last_top_frame out.1 = i)
  ∧ ((i - last_top_frame self <= 10)%Z →
     detected_position out.2 ≠ Some "top"
     ∧ last_top_frame out.1 = last_top_frame self)
  ∧ (detected_position out.2 = Some "bottom" ↔
     ∃ p2 p1 c,
       window3 (spine_angle_history out.1) = Some (p2, p1, c)
       ∧ p2 < p1 ∧ c <= p1 ∧ 50 < p1
       ∧ (10 < i - last_bottom_frame self)%Z).
Proof.
  intros out. subst out.
  destruct (peak_histories self i t a) as [-> ->].
  set (arm_h := arm_angle_history self ++ [arm_height_of a]).
  set (spine_h := spine_angle_history self ++ [spine_of a]).
  intros Hw H1 H2.
  assert (Hm : local_max (prev2, prev1, curr) = true)
    by (by apply local_max_spec).
  unfold _detect_peak. fold arm_h spine_h. change (5 * 2)%nat with 10%nat.
  unfold kept in *.
  destruct (10 <? length arm_h)%nat.
  all: cbn beta iota; rewrite Hw, Hm.
  all: match goal with
       | |- context [window3 ?h] => generalize h; intros sh
       end.
  all: destruct (10 <? i - last_top_frame self)%Z eqn:Egate;
         [apply Z.ltb_lt in Egate | apply Z.ltb_ge in Egate].
  all: destruct (window3 sh) as [[[p2 p1] c]|] eqn:Ews.
  all: try (destruct (local_max (p2, p1, c)) eqn:Elm;
            [apply local_max_spec in Elm
            |apply not_true_iff_false in Elm; rewrite local_max_spec in Elm];
            (destruct (Qltb 50 p1) eqn:E50;
             [apply Qltb_lt in E50
             |apply not_true_iff_false in E50; rewrite Qltb_lt in E50]);
            (destruct (10 <? i - last_bottom_frame self)%Z eqn:Eb;
             [apply Z.ltb_lt in Eb | apply Z.ltb_ge in Eb])).
  all: cbn.
  all: repeat (match goal with
               | |- context [if ?b then _ else _] => destruct b
               end); cbn.
  all: split_and!; try done.
  all: naive_solver lia.
Qed.

(** The gate at a concrete call: history [0, 5], then 0 at frame 2. *)
Lemma arm_peak_flag_and_refractory_gate_witness :
  let self :=
    mkPositionDetector "peak" 5 70 [0; 5] [70; 70] "unknown" (-999) (-999) in
  let out := _detect_peak self 2 (inject_Z 2 / 30) (sample 2 0 70).2 in
  is_arm_peak out.2 = true
  ∧ (detected_position out.2 = Some "top" ↔
     (10 < 2 - last_top_frame self)%Z
     ∧ detected_position out.2 ≠ Some "bottom")
  ∧ (detected_position out.2 = Some "top" →
     confidence out.2 = 0.9 ∧ last_top_frame out.1 = 2%Z)
  ∧ ((2 - last_top_frame self <= 10)%Z →
     detected_position out.2 ≠ Some "top"
     ∧ last_top_frame out.1 = last_top_frame self)
  ∧ (detected_position out.2 = Some "bottom" ↔
     ∃ p2 p1 c,
       window3 (spine_angle_history out.1) = Some (p2, p1, c)
       ∧ p2 < p1 ∧ c <= p1 ∧ 50 < p1
       ∧ (10 < 2 - last_bottom_frame self)%Z).
Proof.
  intros self out.
  apply (arm_peak_flag_and_refractory_gate self 2 (inject_Z 2 / 30)
           (sample 2 0 70).2 0 5 0).
  - reflexivity.
  - reflexivity.
  - discriminate.
Defined.

(** ** Landmark lookup *)

Section LandmarkFacts.
Context {C : Type}.
Implicit Types (keypoints : list (Keypoint C)) (kp : Keypoint C).

Lemma getitem_Ok {V} (d : gmap string V) key v :
  getitem d key = Ok v ↔ d !! key = Some v.
Proof. unfold getitem. destruct (d !! key); naive_solver. Qed.

Lemma getitem_Raise {V} (d : gmap string V) key e :
  getitem d key = Raise e ↔ d !! key = None ∧ e = KeyError key.
Proof. unfold getitem. destruct (d !! key); naive_solver. Qed.

Lemma kp_gety_Raise kp e : kp_gety kp = Raise e → e = KeyError "y".
Proof. unfold kp_gety. destruct (kp_y kp); naive_solver. Qed.

Lemma point_of_Raise kp e :
  point_of kp = Raise e → ∃ k, e = KeyError k.
Proof.
  unfold point_of, kp_getx, kp_gety.
  destruct (kp_x kp), (kp_y kp); cbn; naive_solver.
Qed.

Lemma bind_Raise {A B} (m : py A) (k : A → py B) e :
  m ≫= k = Raise e ↔ m = Raise e ∨ ∃ a, m = Ok a ∧ k a = Raise e.
Proof. destruct m; cbn; naive_solver. Qed.

Lemma bind_Ok {A B} (m : py A) (k : A → py B) b :
  m ≫= k = Ok b ↔ ∃ a, m = Ok a ∧ k a = Ok b.
Proof. destruct m; cbn; naive_solver. Qed.

Lemma required_landmarks_Raise keypoints e :
  required_landmarks keypoints = Raise e → ∃ k, e = KeyError k.
Proof.
  unfold required_landmarks. intros H.
  repeat (apply bind_Raise in H as [H | (? & _ & H)];
          [first [apply getitem_Raise in H as [_ ->]; by eexists
                 | by apply point_of_Raise in H] |]).
  done.
Qed.

Lemma required_landmarks_Ok keypoints lm name :
  required_landmarks keypoints = Ok lm →
  name ∈ (required_names : list string) →
  is_Some (angle_kp_map keypoints !! name).
Proof.
  unfold required_landmarks. intros H Hin.
  repeat (apply bind_Ok in H as (? & ? & H)).
  repeat match goal with
         | H : getitem _ _ = Ok _ |- _ => apply getitem_Ok in H
         end.
  unfold required_names in Hin.
  repeat (apply elem_of_cons in Hin as [-> | Hin]; [by eexists |]).
  by apply elem_of_nil in Hin.
Qed.
End LandmarkFacts.

(** ** The histories of the peak algorithm *)

Lemma length_take_last {A} (n : nat) (l : list A) :
  length (take_last n l) = Nat.min n (length l).
Proof. unfold take_last. rewrite length_drop. lia. Qed.

Lemma take_last_all {A} (n : nat) (l : list A) :
  (length l ≤ n)%nat → take_last n l = l.
Proof.
  intros H. unfold take_last. by replace (length l - n)%nat with 0%nat by lia.
Qed.

Lemma take_last_snoc {A} (n : nat) (l : list A) (y : A) :
  (1 ≤ n)%nat → take_last n (take_last n l ++ [y]) = take_last n (l ++ [y]).
Proof.
  intros Hn. unfold take_last at 1 3.
  rewrite !length_app, length_take_last. cbn [length].
  rewrite !drop_app_le by (rewrite ?length_take_last; lia).
  f_equal. unfold take_last. rewrite drop_drop. f_equal. lia.
Qed.

Lemma kept_take_last (A S : list Q) (x y : Q) :
  length A = length S →
  kept (take_last 10 A ++ [x]) (take_last 10 S ++ [y])
  = take_last 10 (S ++ [y]).
Proof.
  intros Hlen. unfold kept.
  rewrite length_app, length_take_last. cbn [length].
  destruct (10 <? _)%nat eqn:E.
  - apply take_last_snoc. lia.
  - apply Nat.ltb_ge in E.
    rewrite (take_last_all 10 S) by lia.
    rewrite take_last_all; [done |]. rewrite length_app. cbn. lia.
Qed.

(** ** [detect] *)

Section DetectFacts.
Variable angle_math : Landmarks Q → gmap string Q.
Implicit Types (keypoints : list (Keypoint Q)).

Lemma compute_standard_angles_cases keypoints :
  (∃ lm, required_landmarks keypoints = Ok lm
         ∧ compute_standard_angles angle_math keypoints = Ok (angle_math lm))
  ∨ (∃ k, required_landmarks keypoints = Raise (KeyError k)
          ∧ compute_standard_angles angle_math keypoints
            = Ok (degraded_profile 0)).
Proof.
  unfold compute_standard_angles, compute_angles_with.
  destruct (required_landmarks keypoints) as [lm | e] eqn:E; cbn.
  - left. by exists lm.
  - right. apply required_landmarks_Raise in E as E'. destruct E' as [k ->].
    by exists k.
Qed.

Lemma compute_wrist_heights_total keypoints :
  ∃ info, compute_wrist_heights keypoints = Ok info.
Proof.
  unfold compute_wrist_heights.
  match goal with |- context [match ?m with _ => _ end] =>
    destruct m as [info | e] eqn:E end; [by eexists |].
  repeat (apply bind_Raise in E as [E | (? & _ & E)];
          [first [apply getitem_Raise in E as [_ ->]; by eexists
                 | apply kp_gety_Raise in E as ->; by eexists] |]).
  done.
Qed.

Lemma compute_angles_from_keypoints_total keypoints :
  ∃ a, compute_angles_from_keypoints angle_math keypoints = Ok a.
Proof.
  unfold compute_angles_from_keypoints.
  destruct (compute_standard_angles_cases keypoints)
    as [(lm & _ & ->) | (k & _ & ->)];
    destruct (compute_wrist_heights_total keypoints) as [[info |] ->];
    cbn; by eexists.
Qed.

Lemma copy_if_truthy_degraded key name (a : gmap string Q) :
  copy_if_truthy (degraded_profile 0) key name a = a.
Proof.
  unfold copy_if_truthy, degraded_profile.
  destruct (decide (key = "spineAngle")) as [-> | ?];
    [by rewrite lookup_insert_eq |].
  rewrite lookup_insert_ne by done.
  destruct (decide (key = "armToSpineAngle")) as [-> | ?];
    [by rewrite lookup_insert_eq |].
  rewrite lookup_insert_ne by done.
  destruct (decide (key = "armToVerticalAngle")) as [-> | ?];
    [by rewrite lookup_insert_eq |].
  by rewrite lookup_insert_ne, lookup_empty.
Qed.

(** Without one of the seven landmarks the profile of the detector has no
    angle at all: only the wrist heights, when they can be computed. *)
Lemma degraded_angles keypoints name :
  name ∈ (required_names : list string) →
  angle_kp_map keypoints !! name = None →
  ∃ a, compute_angles_from_keypoints angle_math keypoints = Ok a
       ∧ compute_standard_angles angle_math keypoints
         = Ok (degraded_profile 0)
       ∧ a !! "spine" = None
       ∧ a !! "armToVertical" = None
       ∧ a !! "hip" = None.
Proof.
  intros Hin Hnone. unfold compute_angles_from_keypoints.
  destruct (compute_standard_angles_cases keypoints)
    as [(lm & Hlm & _) | (k & _ & ->)].
  { eapply required_landmarks_Ok in Hlm as [? ?]; [| exact Hin].
    congruence. }
  cbn. rewrite !copy_if_truthy_degraded.
  destruct (compute_wrist_heights_total keypoints) as [[info |] ->]; cbn.
  - eexists. split; [done |].
    by rewrite !lookup_insert_ne, lookup_empty.
  - eexists. split; [done |]. by rewrite lookup_empty.
Qed.

Lemma detect_peak self i t keypoints :
  algorithm self = "peak" →
  ∃ a, compute_angles_from_keypoints angle_math keypoints = Ok a
       ∧ detect angle_math self i t keypoints = Ok (_detect_peak self i t a).
Proof.
  intros Halg. unfold detect.
  destruct (compute_angles_from_keypoints_total keypoints)
    as [a Ha].
  exists a. rewrite Ha, Halg. by cbn.
Qed.

Lemma detect_threshold self i t keypoints :
  algorithm self = "threshold" →
  ∃ a, compute_angles_from_keypoints angle_math keypoints = Ok a
       ∧ detect angle_math self i t keypoints
         = Ok (self, _detect_threshold self i t a).
Proof.
  intros Halg. unfold detect.
  destruct (compute_angles_from_keypoints_total keypoints)
    as [a Ha].
  exists a. rewrite Ha, Halg. by cbn.
Qed.

Lemma detect_all_peak frames : ∀ self (A S : list Q),
  algorithm self = "peak" →
  length A = length S →
  arm_angle_history self = take_last 10 A →
  spine_angle_history self = take_last 10 S →
  ∃ self' rs,
    detect_all angle_math self frames = Ok (self', rs)
    ∧ length rs = length frames
    ∧ arm_angle_history self'
      = take_last 10 (A ++ ((λ r, arm_height_of (angles r)) <$> rs))
    ∧ spine_angle_history self'
      = take_last 10 (S ++ ((λ r, spine_of (angles r)) <$> rs)).
Proof.
  induction frames as [| [[i t] kps] frames IH]; intros self A S Halg Hlen HA HS.
  - exists self, []. cbn. by rewrite !app_nil_r.
  - cbn [detect_all].
    destruct (detect_peak self i t kps Halg) as (a & _ & ->). cbn.
    destruct (peak_histories self i t a) as [HA' HS'].
    destruct (peak_result_fields self i t a) as (_ & _ & Ha & Halg').
    rewrite HA in HA'. rewrite HA, HS in HS'.
    rewrite kept_take_last in HA' by done.
    rewrite kept_take_last in HS' by done.
    destruct (IH (_detect_peak self i t a).1 (A ++ [arm_height_of a])
                (S ++ [spine_of a])) as (self' & rs & -> & Hn & HA'' & HS'').
    { congruence. }
    { rewrite !length_app. cbn. lia. }
    { done. }
    { done. }
    cbn. eexists _, _. split; [done |]. cbn. rewrite Ha.
    rewrite <- !app_assoc in HA'', HS''. cbn in HA'', HS''.
    split_and!; [lia | done | done].
Qed.

(** C2, amended (the claim has construction raise).  Construction accepts
    every selector.
    A detector whose selector is neither "threshold" nor "peak" raises
    [ValueError] on every call of [detect]; with one of the two selectors
    [detect] returns a result for every frame, so this is the only error
    the detector raises. *)
Theorem unknown_selector_raises_in_detect (self : PositionDetector) (i : Z)
    (t : Q) (keypoints : list (Keypoint Q)) :
  __init__ (algorithm self) = Ok (fresh_detector (algorithm self))
  ∧ (algorithm self ≠ "threshold" → algorithm self ≠ "peak" →
     detect angle_math self i t keypoints
     = Raise (ValueError ("Unknown algorithm: " +:+ algorithm self)))
  ∧ (algorithm self = "threshold" ∨ algorithm self = "peak" →
     ∃ out, detect angle_math self i t keypoints = Ok out).
Proof.
  split; [done |]. split.
  - intros H1 H2. unfold detect.
    destruct (compute_angles_from_keypoints_total keypoints) as [a ->].
    cbn. apply String.eqb_neq in H1, H2. by rewrite H1, H2.
  - intros [H | H].
    + destruct (detect_threshold self i t keypoints H) as (a & _ & ->).
      by eexists.
    + destruct (detect_peak self i t keypoints H) as (a & _ & ->).
      by eexists.
Qed.

(** C8.  When one of the seven landmarks of [compute_angles] is missing
    from the keypoint map, [detect] with the threshold algorithm does not
    report an undetermined frame: the standard angles are the all-zero
    degraded profile, none of them passes the truthiness test, the profile
    of the result has no "spine" entry, the spine reads as 0 and the frame
    is labelled "top" with confidence 1. *)
Theorem missing_landmark_is_top (self : PositionDetector) (i : Z) (t : Q)
    (keypoints : list (Keypoint Q)) (name : string) :
  algorithm self = "threshold" →
  name ∈ (required_names : list string) →
  angle_kp_map keypoints !! name = None →
  ∃ r, detect angle_math self i t keypoints = Ok (self, r)
       ∧ compute_standard_angles angle_math keypoints
         = Ok (degraded_profile 0)
       ∧ angles r !! "spine" = None
       ∧ angles r !! "armToVertical" = None
       ∧ angles r !! "hip" = None
       ∧ spine_of (angles r) = 0
       ∧ frame_index r = i
       ∧ detected_position r = Some "top"
       ∧ confidence r == 1.
Proof.
  intros Halg Hin Hnone.
  destruct (detect_threshold self i t keypoints Halg) as (a & Ha & ->).
  destruct (degraded_angles keypoints name Hin Hnone)
    as (a' & Ha' & Hstd & Hs & Hv & Hh).
  rewrite Ha in Ha'. injection Ha' as <-.
  eexists. split; [done |].
  destruct (threshold_fields self i t a) as (-> & _ & -> & _).
  assert (Hspine : spine_of a = 0) by (unfold spine_of; by rewrite Hs).
  split_and!; try done.
  - unfold _detect_threshold. by rewrite Hspine.
  - unfold _detect_threshold. rewrite Hspine. by vm_compute.
Qed.

(** C10.  Starting from [reset], any number of [detect] calls with the
    peak algorithm succeeds and leaves both histories with at most 10
    entries: they are the last ten arm heights and the last ten spine
    angles of the frames seen (all of them when fewer than ten). *)
Theorem peak_histories_bounded (self : PositionDetector)
    (frames : list (Z * Q * list (Keypoint Q))) :
  algorithm self = "peak" →
  ∃ self' rs,
    detect_all angle_math (reset self) frames = Ok (self', rs)
    ∧ length rs = length frames
    ∧ (length (arm_angle_history self') ≤ 10)%nat
    ∧ (length (spine_angle_history self') ≤ 10)%nat
    ∧ arm_angle_history self'
      = take_last 10 ((λ r, arm_height_of (angles r)) <$> rs)
    ∧ spine_angle_history self'
      = take_last 10 ((λ r, spine_of (angles r)) <$> rs).
Proof.
  intros Halg.
  destruct (detect_all_peak frames (reset self) [] [])
    as (self' & rs & Hrun & Hn & HA & HS); try done.
  exists self', rs. rewrite app_nil_l in HA, HS.
  split_and!; try done.
  - rewrite HA, length_take_last. lia.
  - rewrite HS, length_take_last. lia.
Qed.
End DetectFacts.

(** C2, as the specification states it, fails: constructing a detector with
    the selector "median" succeeds; the error comes with the first call of
    [detect]. *)
Lemma unknown_selector_constructs :
  __init__ "median" = Ok (fresh_detector "median")
  ∧ algorithm (fresh_detector "median") = "median"
  ∧ detect (λ _, ∅) (fresh_detector "median") 0 0 []
    = Raise (ValueError "Unknown algorithm: median").
Proof. by vm_compute. Qed.

(** An empty keypoint list under the threshold algorithm. *)
Lemma missing_landmark_is_top_witness :
  ∃ r, detect (λ _, ∅) (fresh_detector "threshold") 0 0 []
       = Ok (fresh_detector "threshold", r)
       ∧ compute_standard_angles (λ _, ∅) [] = Ok (degraded_profile 0)
       ∧ angles r !! "spine" = None
       ∧ angles r !! "armToVertical" = None
       ∧ angles r !! "hip" = None
       ∧ spine_of (angles r) = 0
       ∧ frame_index r = 0%Z
       ∧ detected_position r = Some "top"
       ∧ confidence r == 1.
Proof.
  apply (missing_landmark_is_top (λ _, ∅) (fresh_detector "threshold") 0 0 []
           "left_shoulder").
  - reflexivity.
  - constructor.
  - reflexivity.
Defined.

(** Twelve frames through a fresh peak detector. *)
Lemma peak_histories_bounded_witness :
  ∃ self' rs,
    detect_all (λ _, ∅) (reset (fresh_detector "peak")) (blank_frames 12)
    = Ok (self', rs)
    ∧ length rs = length (blank_frames 12)
    ∧ (length (arm_angle_history self') ≤ 10)%nat
    ∧ (length (spine_angle_history self') ≤ 10)%nat
    ∧ arm_angle_history self'
      = take_last 10 ((λ r, arm_height_of (angles r)) <$> rs)
    ∧ spine_angle_history self'
      = take_last 10 ((λ r, spine_of (angles r)) <$> rs).
Proof.
  apply (peak_histories_bounded (λ _, ∅) (fresh_detector "peak")
           (blank_frames 12)).
  reflexivity.
Defined.

(** ** The peak finder *)

Section FindPeaks.
Variables (values : list Q) (min_distance : Z) (threshold : option Q).

Local Abbreviation loop := (find_peaks_loop values min_distance threshold).
Local Abbreviation step := (find_peaks_step values min_distance threshold).

Lemma find_peaks_step_accepts st i :
  step st i
  = if accepts values min_distance threshold st.2 i
    then (st.1 ++ [i], Z.of_nat i) else st.
Proof.
  unfold find_peaks_step, accepts.
  destruct (is_local_maximum values i), (below_threshold threshold values i),
    (min_distance <=? Z.of_nat i - st.2)%Z; done.
Qed.

Lemma find_peaks_loop_S n : loop (S n) = step (loop n) (S n).
Proof.
  unfold find_peaks_loop. by rewrite seq_S, foldl_snoc.
Qed.

Lemma loop_inv_holds n : loop_inv min_distance n (loop n).
Proof.
  induction n as [| n IH].
  - split; cbn; [by intros a ?%elem_of_nil | done | by intros [] ?????].
  - rewrite find_peaks_loop_S, find_peaks_step_accepts.
    destruct IH as [Hr Hl Hs]. destruct (loop n) as [peaks last_peak].
    cbn [fst snd] in *.
    destruct (accepts _ _ _ _ _) eqn:E.
    + apply andb_true_iff in E as [_ E%Z.leb_le].
      split; cbn [fst snd].
      * intros a [Ha | ->%list_elem_of_singleton]%elem_of_app. 2: lia.
        apply Hr in Ha. lia.
      * by rewrite last_snoc.
      * intros j k a b Hjk Hj Hk.
        apply lookup_app_Some in Hk as [Hk | [Hlen Hk]].
        { rewrite lookup_app_l in Hj by (apply lookup_lt_Some in Hk; lia).
          by eapply Hs. }
        apply list_lookup_singleton_Some in Hk as [Hk0 <-].
        rewrite lookup_app_l in Hj by lia.
        assert (Ha : (1 ≤ a ≤ n)%nat)
          by (apply Hr; by eapply list_elem_of_lookup_2).
        split; [lia |].
        (* [a] is at most the last accepted index *)
        assert (Z.of_nat a ≤ last_peak)%Z; [| lia].
        rewrite Hl. destruct (last peaks) as [z |] eqn:Elast; cbn.
        -- apply last_Some in Elast as [l' ->].
           apply lookup_app_Some in Hj as [Hj | [_ Hj]].
           ++ assert (Hz : (l' ++ [z]) !! length l' = Some z)
                by (by rewrite lookup_app_r, Nat.sub_diag by lia).
              apply lookup_lt_Some in Hj as Hlt.
              destruct (Hs j (length l') a z Hlt) as [? _].
              { by rewrite lookup_app_l by done. }
              { done. }
              lia.
           ++ apply list_lookup_singleton_Some in Hj as [_ <-]. lia.
        -- apply last_None in Elast as ->. by rewrite lookup_nil in Hj.
    + split; [| done | done]. intros a Ha. apply Hr in Ha. lia.
Qed.

Lemma filter_all_true {A} (P : A → Prop) `{∀ x, Decision (P x)} (l : list A) :
  (∀ x, x ∈ l → P x) → filter P l = l.
Proof.
  induction l as [| x l IH]; intros Hl; [done |].
  rewrite filter_cons_True by (apply Hl; constructor).
  f_equal. apply IH. intros y Hy. apply Hl. by constructor.
Qed.

Lemma filter_all_false {A} (P : A → Prop) `{∀ x, Decision (P x)} (l : list A) :
  (∀ x, x ∈ l → ¬ P x) → filter P l = [].
Proof.
  induction l as [| x l IH]; intros Hl; [done |].
  rewrite filter_cons_False by (apply Hl; constructor).
  apply IH. intros y Hy. apply Hl. by constructor.
Qed.

(** Later iterations only append, and only later indices. *)
Lemma find_peaks_loop_prefix n m :
  ∃ rest, (loop (n + m)).1 = (loop n).1 ++ rest
          ∧ ∀ a, a ∈ rest → (n < a)%nat.
Proof.
  induction m as [| m (rest & IH & Hrest)].
  - exists []. rewrite Nat.add_0_r, app_nil_r. split; [done |].
    by intros a ?%elem_of_nil.
  - replace (n + S m)%nat with (S (n + m)) by lia.
    rewrite find_peaks_loop_S, find_peaks_step_accepts.
    destruct (accepts _ _ _ _ _); [| by exists rest].
    exists (rest ++ [S (n + m)]). cbn [fst]. rewrite IH, app_assoc.
    split; [done |].
    intros a [Ha | ->%list_elem_of_singleton]%elem_of_app; [by apply Hrest | lia].
Qed.

Lemma find_peaks_loop_before n i :
  (1 ≤ i ≤ n)%nat →
  filter (λ p, (p < i)%nat) (loop n).1 = (loop (i - 1)).1.
Proof.
  intros Hi.
  destruct (find_peaks_loop_prefix (i - 1) (n - (i - 1))) as (rest & E & Hrest).
  replace (i - 1 + (n - (i - 1)))%nat with n in E by lia.
  rewrite E, filter_app, filter_all_true, filter_all_false, app_nil_r; [done | |].
  - intros a Ha%Hrest. lia.
  - intros a Ha. apply (inv_range _ _ _ (loop_inv_holds (i - 1))) in Ha. lia.
Qed.

Lemma last_accepted_before_loop n i :
  (1 ≤ i ≤ n)%nat →
  last_accepted_before min_distance (loop n).1 i = (loop (i - 1)).2.
Proof.
  intros Hi. unfold last_accepted_before.
  rewrite find_peaks_loop_before by done.
  symmetry. apply (inv_last _ _ _ (loop_inv_holds (i - 1))).
Qed.

Lemma elem_of_find_peaks_loop n i :
  i ∈ (loop n).1 ↔
  (1 ≤ i ≤ n)%nat
  ∧ accepts values min_distance threshold
      (last_accepted_before min_distance (loop n).1 i) i = true.
Proof.
  split.
  - intros Hin. assert (Hi := inv_range _ _ _ (loop_inv_holds n) i Hin).
    split; [done |]. rewrite last_accepted_before_loop by done.
    destruct (find_peaks_loop_prefix i (n - i)) as (rest & E & Hrest).
    replace (i + (n - i))%nat with n in E by lia.
    rewrite E in Hin. apply elem_of_app in Hin as [Hin | Hin%Hrest]; [| lia].
    replace i with (S (i - 1)) in Hin at 2 by lia.
    rewrite find_peaks_loop_S, find_peaks_step_accepts in Hin.
    replace (S (i - 1)) with i in Hin by lia.
    destruct (accepts _ _ _ _ _); [done |].
    apply (inv_range _ _ _ (loop_inv_holds (i - 1))) in Hin. lia.
  - intros [Hi Hacc]. rewrite last_accepted_before_loop in Hacc by done.
    destruct (find_peaks_loop_prefix i (n - i)) as (rest & E & Hrest).
    replace (i + (n - i))%nat with n in E by lia.
    rewrite E. apply elem_of_app. left.
    replace i with (S (i - 1)) at 2 by lia.
    rewrite find_peaks_loop_S, find_peaks_step_accepts.
    replace (S (i - 1)) with i by lia.
    rewrite Hacc. cbn. apply elem_of_app. right. by constructor.
Qed.

(** C6.  Any two indices returned by [find_peaks] are in increasing order
    and at least [min_distance] apart.  An index is returned exactly when it
    is an inner index that is a local maximum, is not below the threshold,
    and lies at least [min_distance] past the index accepted last before it
    ([-min_distance] when none was): candidates that were rejected or
    skipped do not count, and the loop's [last_peak] is always the last
    accepted index.  A list shorter than 3 gives the empty list. *)
Theorem find_peaks_spacing :
  let peaks := find_peaks values min_distance threshold in
  (∀ j k a b, (j < k)%nat → peaks !! j = Some a → peaks !! k = Some b →
     (a < b)%nat ∧ (min_distance ≤ Z.of_nat b - Z.of_nat a)%Z)
  ∧ (∀ i, i ∈ peaks ↔
       (1 ≤ i)%nat ∧ (i + 1 < length values)%nat
       ∧ is_local_maximum values i = true
       ∧ below_threshold threshold values i = false
       ∧ (min_distance
          ≤ Z.of_nat i - last_accepted_before min_distance peaks i)%Z)
  ∧ (∀ n, (loop n).2
          = from_option Z.of_nat (- min_distance)%Z (last (loop n).1))
  ∧ ((length values < 3)%nat → peaks = []).
Proof.
  intros peaks. subst peaks. unfold find_peaks.
  split_and!.
  - destruct (length values <? 3)%nat; [by intros [] ????? |].
    apply (inv_spaced _ _ _ (loop_inv_holds _)).
  - intros i. destruct (length values <? 3)%nat eqn:E.
    + apply Nat.ltb_lt in E. split; [by intros ?%elem_of_nil | lia].
    + apply Nat.ltb_ge in E. rewrite elem_of_find_peaks_loop.
      unfold accepts. rewrite !andb_true_iff, negb_true_iff, Z.leb_le.
      split; [intros (? & (? & ?) & ?) | intros (? & ? & ? & ? & ?)];
        split_and!; try done; lia.
  - intros n. apply (inv_last _ _ _ (loop_inv_holds n)).
  - intros H. apply Nat.ltb_lt in H. by rewrite H.
Qed.
End FindPeaks.


(** ** The evaluator *)

Lemma within_tolerance_spec a b :
  within_tolerance a b = true ↔ (Z.abs (a - b) ≤ 2)%Z.
Proof. unfold within_tolerance. apply Z.leb_le. Qed.

Lemma within_tolerance_sym a b : within_tolerance a b = within_tolerance b a.
Proof.
  unfold within_tolerance. f_equal. rewrite <- Z.abs_opp. f_equal. lia.
Qed.

Lemma match_any_spec detected (gts : list Z) :
  match_any detected gts = true ↔
  ∃ gt, gt ∈ gts ∧ (Z.abs (detected - gt) ≤ 2)%Z.
Proof.
  induction gts as [| g gts IH]; cbn.
  - split; [done | by intros (? & ?%elem_of_nil & _)].
  - destruct (within_tolerance detected g) eqn:E.
    + apply within_tolerance_spec in E. split; [| done].
      intros _. exists g. split; [constructor | done].
    + rewrite IH. apply not_true_iff_false in E.
      rewrite within_tolerance_spec in E.
      split.
      * intros (gt & ? & ?). exists gt. split; [by constructor | done].
      * intros (gt & [-> | ?]%elem_of_cons & ?); [done |]. by exists gt.
Qed.

Lemma existsb_spec {A} (f : A → bool) (l : list A) :
  existsb f l = true ↔ ∃ x, x ∈ l ∧ f x = true.
Proof.
  rewrite existsb_exists. by setoid_rewrite list_elem_of_In.
Qed.

Lemma match_any_near detected (G : gset Z) :
  match_any detected (elements G) = true ↔ near G detected.
Proof.
  rewrite match_any_spec. unfold near, set_Exists.
  by setoid_rewrite elem_of_elements.
Qed.

Lemma existsb_near gt (D : gset Z) :
  existsb (λ detected, within_tolerance detected gt) (elements D) = true ↔
  near D gt.
Proof.
  rewrite existsb_spec. unfold near, set_Exists.
  setoid_rewrite elem_of_elements.
  setoid_rewrite within_tolerance_spec.
  split; intros (d & ? & ?); exists d; (split; [done |]).
  - rewrite <- Z.abs_opp. by replace (- (gt - d))%Z with (d - gt)%Z by lia.
  - rewrite <- Z.abs_opp. by replace (- (d - gt))%Z with (gt - d)%Z by lia.
Qed.

Lemma size_filter (P : Z → Prop) `{∀ x, Decision (P x)} (X : gset Z) :
  size (filter P X) = length (filter P (elements X)).
Proof.
  unfold filter at 1, set_filter.
  apply size_list_to_set, NoDup_filter, NoDup_elements.
Qed.

Lemma count_detected_fold (gts : list Z) (ds : list Z) : ∀ m,
  let m' := foldl (count_detected gts) m ds in
  true_positives m'
  = (true_positives m
     + length (filter (λ d, match_any d gts = true) ds))%nat
  ∧ false_positives m'
    = (false_positives m
       + length (filter (λ d, ¬ match_any d gts = true) ds))%nat
  ∧ false_negatives m' = false_negatives m
  ∧ total_frames m' = total_frames m.
Proof.
  induction ds as [| d ds IH]; intros m; cbn [foldl].
  - cbn. split_and!; try done; lia.
  - specialize (IH (count_detected gts m d)).
    cbn zeta in IH. destruct IH as (-> & -> & -> & ->).
    unfold count_detected. rewrite !filter_cons.
    destruct (match_any d gts) eqn:E; cbn [true_positives false_positives
      false_negatives total_frames].
    + rewrite decide_True by done. rewrite (decide_False (P := ¬ _)) by tauto.
      cbn. split_and!; try done; lia.
    + rewrite decide_False by done. rewrite (decide_True (P := ¬ _)) by done.
      cbn. split_and!; try done; lia.
Qed.

Lemma count_missed_fold (ds : list Z) (gts : list Z) : ∀ m,
  let m' := foldl (count_missed ds) m gts in
  true_positives m' = true_positives m
  ∧ false_positives m' = false_positives m
  ∧ false_negatives m'
    = (false_negatives m
       + length (filter
                   (λ gt, ¬ existsb (λ d, within_tolerance d gt) ds = true)
                   gts))%nat
  ∧ total_frames m' = total_frames m.
Proof.
  induction gts as [| g gts IH]; intros m; cbn [foldl].
  - cbn. split_and!; try done; lia.
  - specialize (IH (count_missed ds m g)).
    cbn zeta in IH. destruct IH as (-> & -> & -> & ->).
    unfold count_missed. rewrite !filter_cons.
    destruct (existsb _ ds) eqn:E; cbn [true_positives false_positives
      false_negatives total_frames].
    + rewrite (decide_False (P := ¬ _)) by tauto.
      split_and!; try done; lia.
    + rewrite (decide_True (P := ¬ _)) by done.
      cbn. split_and!; try done; lia.
Qed.

Lemma evaluate_algorithm_counts (results : list DetectionResult)
    (ground_truth : list GroundTruth) (position : string) :
  let m := evaluate_algorithm results ground_truth position in
  let D := detected_frames_of results position in
  let G := gt_frames_of ground_truth position in
  true_positives m = size (filter (near G) D)
  ∧ false_positives m = size (filter (λ d, ¬ near G d) D)
  ∧ false_negatives m = size (filter (λ g, ¬ near D g) G)
  ∧ total_frames m = length results.
Proof.
  intros m D G. subst m. unfold evaluate_algorithm. cbv zeta. fold D G.
  destruct (count_missed_fold (elements D) (elements G)
              (foldl (count_detected (elements G))
                 (mkAlgorithmMetrics 0 0 0 (length results) [])
                 (elements D))) as (-> & -> & -> & ->).
  destruct (count_detected_fold (elements G) (elements D)
              (mkAlgorithmMetrics 0 0 0 (length results) []))
    as (-> & -> & -> & ->).
  cbn [true_positives false_positives false_negatives total_frames].
  rewrite !size_filter. split_and!; [| | | done]; cbn; f_equal.
  - apply list_filter_iff. intros d. apply match_any_near.
  - apply list_filter_iff. intros d. by rewrite match_any_near.
  - apply list_filter_iff. intros g. by rewrite existsb_near.
Qed.

Lemma elem_of_detected_frames_of results position d :
  d ∈ detected_frames_of results position ↔
  ∃ r, r ∈ results ∧ detected_position r = Some position ∧ frame_index r = d.
Proof.
  unfold detected_frames_of.
  rewrite elem_of_list_to_set, list_elem_of_fmap.
  setoid_rewrite list_elem_of_filter. naive_solver.
Qed.

Lemma elem_of_gt_frames_of ground_truth position g :
  g ∈ gt_frames_of ground_truth position ↔
  ∃ a, a ∈ ground_truth ∧ gt_position a = position ∧ gt_frame_index a = g.
Proof.
  unfold gt_frames_of.
  rewrite elem_of_list_to_set, list_elem_of_fmap.
  setoid_rewrite list_elem_of_filter. naive_solver.
Qed.

(** C5.  [evaluate_algorithm] counts with a tolerance of two frames, each
    direction on its own: the true positives are the detected frames of the
    position that have some ground-truth frame of the position within 2
    frames, the false positives are the other detected frames, the false
    negatives are the ground-truth frames with no detected frame within 2
    frames.  Nothing pairs them one to one: detections at 9 and 11 are both
    matched by the one annotation at 10.  With "top" annotated at frame 10: a
    detection at 11 gives (tp, fp, fn) = (1, 0, 0); one more at 20 gives
    fp = 1; no "top" detection in frames 8..12 gives fn = 1. *)
Theorem evaluate_counts (results : list DetectionResult)
    (ground_truth : list GroundTruth) (position : string) :
  let m := evaluate_algorithm results ground_truth position in
  let D := detected_frames_of results position in
  let G := gt_frames_of ground_truth position in
  (true_positives m = size (filter (near G) D)
   ∧ false_positives m = size (filter (λ d, ¬ near G d) D)
   ∧ false_negatives m = size (filter (λ g, ¬ near D g) G)
   ∧ total_frames m = length results)
  ∧ (∀ d, d ∈ D ↔
       ∃ r, r ∈ results ∧ detected_position r = Some position
            ∧ frame_index r = d)
  ∧ (∀ g, g ∈ G ↔
       ∃ a, a ∈ ground_truth ∧ gt_position a = position
            ∧ gt_frame_index a = g)
  ∧ counts (evaluate_algorithm [detection 11 (Some "top")]
              [annotation 10 "top"] "top") = (1, 0, 0)%nat
  ∧ counts (evaluate_algorithm
              [detection 11 (Some "top"); detection 20 (Some "top")]
              [annotation 10 "top"] "top") = (1, 1, 0)%nat
  ∧ counts (evaluate_algorithm
              [detection 7 (Some "top"); detection 9 (Some "bottom");
               detection 10 None; detection 13 (Some "top")]
              [annotation 10 "top"] "top") = (0, 2, 1)%nat
  ∧ counts (evaluate_algorithm
              [detection 9 (Some "top"); detection 11 (Some "top")]
              [annotation 10 "top"] "top") = (2, 0, 0)%nat
  ∧ ((∀ r, r ∈ results → detected_position r = Some "top" →
        (frame_index r < 8 ∨ 12 < frame_index r)%Z) →
     false_negatives (evaluate_algorithm results [annotation 10 "top"] "top")
     = 1%nat).
Proof.
  intros m D G.
  split; [apply evaluate_algorithm_counts |].
  split; [intros d; apply elem_of_detected_frames_of |].
  split; [intros g; apply elem_of_gt_frames_of |].
  split_and!; try by vm_compute.
  intros Hfar.
  destruct (evaluate_algorithm_counts results [annotation 10 "top"] "top")
    as (_ & _ & -> & _).
  replace (gt_frames_of [annotation 10 "top"] "top") with ({[10%Z]} : gset Z)
    by (by vm_compute).
  rewrite filter_singleton_True_L; [apply size_singleton | apply _ |].
  intros (d & Hd & Hnear).
  apply elem_of_detected_frames_of in Hd as (r & Hr & Hpos & <-).
  specialize (Hfar r Hr Hpos). lia.
Qed.

(** ** Angles over the reals *)

Section GeometryFacts.
Import Geometry.
Local Open Scope R_scope.

Lemma eps_pos : 0 < eps.
Proof. unfold eps. lra. Qed.

Lemma norm_nonneg v : 0 <= norm v.
Proof. apply sqrt_pos. Qed.

Lemma py_div_nonzero x y : y ≠ 0 → py_div x y = Ok (x / y).
Proof. intros H. unfold py_div. by destruct (Req_dec_T y 0). Qed.

Lemma clip_range x : -1 <= clip x (-1) 1 <= 1.
Proof.
  unfold clip, Rmax.
  destruct (Rle_dec x (-1)); unfold Rmin; destruct (Rle_dec _ 1); lra.
Qed.

Lemma clip_id x : -1 <= x <= 1 → clip x (-1) 1 = x.
Proof.
  intros H. unfold clip, Rmax.
  destruct (Rle_dec x (-1)); unfold Rmin; destruct (Rle_dec _ 1); lra.
Qed.

Lemma degrees_range a : 0 <= a <= PI → 0 <= degrees a <= 180.
Proof.
  intros [H0 H1]. unfold degrees. pose proof PI_RGT_0 as Hpi.
  assert (Hk : 0 < 180 / PI) by (apply Rdiv_lt_0_compat; lra).
  split; [nra |].
  replace 180 with (PI * (180 / PI)) at 2 by (field; lra).
  nra.
Qed.

Lemma math_acos_clip c : math_acos (clip c (-1) 1) = Ok (acos (clip c (-1) 1)).
Proof.
  unfold math_acos. destruct (clip_range c) as [H1 H2].
  destruct (Rle_dec _ _); [| done]. by destruct (Rle_dec _ _).
Qed.

Lemma clipped_angle_eq c :
  clipped_angle c = Ok (degrees (acos (clip c (-1) 1))).
Proof. unfold clipped_angle. by rewrite math_acos_clip. Qed.

Lemma clipped_angle_range c :
  0 <= degrees (acos (clip c (-1) 1)) <= 180.
Proof. apply degrees_range, acos_bound. Qed.

Lemma denominator_pos a b : 0 <= a → 0 <= b → 0 < a * b + eps.
Proof. intros. pose proof eps_pos. nra. Qed.

(** [calculate_angle] in closed form: the divisor is never zero and the
    clipped cosine is in the domain of [acos]. *)
Lemma calculate_angle_eq p1 p2 p3 :
  let v1 := (p1.1 - p2.1, p1.2 - p2.2) in
  let v2 := (p3.1 - p2.1, p3.2 - p2.2) in
  calculate_angle p1 p2 p3
  = Ok (degrees (acos (clip (dot v1 v2 / (norm v1 * norm v2 + eps)) (-1) 1))).
Proof.
  intros v1 v2. unfold calculate_angle. fold v1 v2.
  rewrite py_div_nonzero; [cbn; apply clipped_angle_eq |].
  pose proof (denominator_pos (norm v1) (norm v2) (norm_nonneg _) (norm_nonneg _)).
  lra.
Qed.

Lemma round_half_even_range (a b : Z) (x : R) :
  IZR a <= x <= IZR b → (a ≤ round_half_even x ≤ b)%Z.
Proof.
  intros [Ha Hb]. unfold round_half_even.
  destruct (base_Int_part x) as [Hn1 Hn2].
  set (n := Int_part x) in *.
  assert (a ≤ n)%Z.
  { apply Z.lt_succ_r, lt_IZR. rewrite succ_IZR. lra. }
  assert (n ≤ b)%Z by (apply le_IZR; lra).
  destruct (Rlt_dec _ _) as [Hf | Hf]; [lia |].
  assert (n < b)%Z.
  { apply Z.le_neq. split; [done |]. intros ->. lra. }
  destruct (Rlt_dec _ _); [lia |]. destruct (Z.even n); lia.
Qed.

Lemma round2_range x : 0 <= x <= 180 → 0 <= round2 x <= 180.
Proof.
  intros H. unfold round2.
  destruct (round_half_even_range 0 18000 (x * 100)) as [H0 H1]; [lra |].
  apply IZR_le in H0, H1. lra.
Qed.

Lemma degrees_half_pi : degrees (PI / 2) = 90.
Proof. unfold degrees. pose proof PI_RGT_0. field. lra. Qed.

Lemma degrees_lt a b : a < b → degrees a < degrees b.
Proof.
  intros H. unfold degrees. pose proof PI_RGT_0 as Hpi.
  assert (0 < 180 / PI) by (apply Rdiv_lt_0_compat; lra). nra.
Qed.

Lemma degrees_pi : degrees PI = 180.
Proof. unfold degrees. pose proof PI_RGT_0. field. lra. Qed.

(** A zero vector on either side gives exactly 90 degrees. *)
Lemma calculate_angle_degenerate p1 p2 p3 :
  p1 = p2 ∨ p3 = p2 → calculate_angle p1 p2 p3 = Ok 90.
Proof.
  intros H. rewrite calculate_angle_eq. cbv zeta.
  set (d := norm _ * norm _ + eps).
  assert (Hdot : dot (p1.1 - p2.1, p1.2 - p2.2) (p3.1 - p2.1, p3.2 - p2.2) = 0).
  { unfold dot. cbn [fst snd]. destruct H as [-> | ->]; ring. }
  rewrite Hdot. replace (0 / d) with 0 by (unfold Rdiv; ring).
  rewrite clip_id by lra. by rewrite acos_0, degrees_half_pi.
Qed.

Lemma acos_obtuse c : -1 < c < 0 → PI / 2 < acos c < PI.
Proof.
  intros [H1 H2]. destruct (acos_bound_lt c) as [Ha0 Ha1]; [lra |].
  split; [| done].
  destruct (Rlt_dec (PI / 2) (acos c)) as [| Hn]; [done |].
  exfalso. pose proof (cos_acos c) as Hc.
  pose proof (cos_ge_0 (acos c)) as Hpos.
  pose proof PI_RGT_0.
  rewrite Hc in Hpos by lra. lra.
Qed.

(** Opposite rays: the cosine is [-m / (m + eps)] with [m] the product of
    the two lengths, strictly above [-1]. *)
Lemma opposite_rays_angle (p1 p2 p3 : Vec) (k : R) :
  0 < k → p1 ≠ p2 →
  p3.1 - p2.1 = - k * (p1.1 - p2.1) →
  p3.2 - p2.2 = - k * (p1.2 - p2.2) →
  let m := norm (p1.1 - p2.1, p1.2 - p2.2) * norm (p3.1 - p2.1, p3.2 - p2.2) in
  0 < m
  ∧ calculate_angle p1 p2 p3 = Ok (degrees (acos (- m / (m + eps))))
  ∧ 90 < degrees (acos (- m / (m + eps))) < 180.
Proof.
  intros Hk Hne Hx Hy m. subst m.
  rewrite calculate_angle_eq. cbv zeta. rewrite Hx, Hy.
  set (x := p1.1 - p2.1) in *. set (y := p1.2 - p2.2) in *.
  assert (Hs : 0 < x * x + y * y).
  { destruct (Req_dec_T x 0) as [Hx0 | ?]; [| nra].
    destruct (Req_dec_T y 0) as [Hy0 | ?]; [| nra].
    exfalso. apply Hne. subst x y. destruct p1, p2. cbn in *. f_equal; lra. }
  unfold norm, dot. cbn [fst snd].
  replace (- k * x * (- k * x) + - k * y * (- k * y))
    with ((k * k) * (x * x + y * y)) by ring.
  rewrite sqrt_mult by nra. rewrite sqrt_square by lra.
  set (r := sqrt (x * x + y * y)).
  assert (Hr : r * r = x * x + y * y) by (apply sqrt_sqrt; lra).
  assert (Hr0 : 0 < r) by (apply sqrt_lt_R0; lra).
  replace (x * (- k * x) + y * (- k * y)) with (- (r * (k * r)))
    by (rewrite <- (Rmult_comm r k), <- Rmult_assoc; nra).
  set (m := r * (k * r)).
  assert (Hm : 0 < m) by (subst m; nra).
  pose proof eps_pos as He.
  assert (Hc : -1 < - m / (m + eps) < 0).
  { split.
    - apply Rmult_lt_reg_r with (m + eps); [lra |].
      unfold Rdiv. rewrite Rmult_assoc, Rinv_l by lra. lra.
    - apply Rmult_lt_reg_r with (m + eps); [lra |].
      unfold Rdiv. rewrite Rmult_assoc, Rinv_l by lra. lra. }
  rewrite clip_id by lra.
  split; [done |]. split; [done |].
  destruct (acos_obtuse _ Hc) as [Hlo Hhi].
  rewrite <- degrees_half_pi, <- degrees_pi.
  split; by apply degrees_lt.
Qed.

Lemma rounded_angle_range c :
  0 <= round2 (degrees (acos (clip c (-1) 1))) <= 180.
Proof. apply round2_range, clipped_angle_range. Qed.

Lemma norm_eps_nonzero v : norm v + eps ≠ 0.
Proof. pose proof (norm_nonneg v). pose proof eps_pos. lra. Qed.

Lemma norms_eps_nonzero v w : norm v * norm w + eps ≠ 0.
Proof.
  pose proof (denominator_pos _ _ (norm_nonneg v) (norm_nonneg w)). lra.
Qed.

(** The arithmetic of [compute_angles] never raises, and all five angles
    are in range. *)
Lemma angle_math_range (lm : Landmarks R) :
  ∃ profile, angle_math lm = Ok profile
             ∧ ∀ k v, profile !! k = Some v → 0 <= v <= 180.
Proof.
  unfold angle_math. cbv zeta.
  repeat (first [ rewrite py_div_nonzero
                    by first [apply norm_eps_nonzero | apply norms_eps_nonzero]
                | rewrite clipped_angle_eq
                | rewrite calculate_angle_eq ];
          cbv beta iota zeta delta [mbind py_bind]).
  eexists. split; [done |].
  intros k v Hk.
  repeat (apply lookup_insert_Some in Hk as [[_ <-] | [_ Hk]];
          [apply rounded_angle_range |]).
  by rewrite lookup_empty in Hk.
Qed.

Lemma compute_angles_range (keypoints : list (Keypoint R)) :
  ∃ profile, compute_angles keypoints = Ok profile
             ∧ ∀ k v, profile !! k = Some v → 0 <= v <= 180.
Proof.
  unfold compute_angles, compute_angles_with.
  destruct (required_landmarks keypoints) as [lm | e] eqn:E; cbn.
  - destruct (angle_math_range lm) as (profile & -> & Hrange). by exists profile.
  - apply required_landmarks_Raise in E as [k ->].
    eexists. split; [done |]. intros key v Hk. unfold degraded_profile in Hk.
    repeat (apply lookup_insert_Some in Hk as [[_ <-] | [_ Hk]]; [lra |]).
    by rewrite lookup_empty in Hk.
Qed.

(** C7.  [calculate_angle] never raises and returns a value in [0, 180]:
    the divisor [|v1| * |v2| + 1e-6] is positive, so the division is
    defined also when [p1] or [p3] is the vertex (the result is then 90),
    and the clipped cosine is in the domain of [acos].  Every angle of a
    profile returned by [compute_angles] is in [0, 180] as well. *)
Theorem angles_in_range (p1 p2 p3 : Vec) (keypoints : list (Keypoint R)) :
  0 < norm (p1.1 - p2.1, p1.2 - p2.2) * norm (p3.1 - p2.1, p3.2 - p2.2) + eps
  ∧ (∃ a, calculate_angle p1 p2 p3 = Ok a ∧ 0 <= a <= 180)
  ∧ (p1 = p2 ∨ p3 = p2 → calculate_angle p1 p2 p3 = Ok 90)
  ∧ (∃ profile, compute_angles keypoints = Ok profile
                ∧ ∀ k v, profile !! k = Some v → 0 <= v <= 180).
Proof.
  split_and!.
  - apply denominator_pos; apply norm_nonneg.
  - rewrite calculate_angle_eq. eexists. split; [done |].
    apply clipped_angle_range.
  - apply calculate_angle_degenerate.
  - apply compute_angles_range.
Qed.

(** C9, as the specification states it, fails: for the collinear triple
    (-1, 0), (0, 0), (1, 0) the cosine is [-1 / (1 + 1e-6)], above [-1], and
    the angle returned is below 180. *)
Lemma straight_angle_below_180 :
  ∃ a, calculate_angle (-1, 0) (0, 0) (1, 0) = Ok a ∧ a < 180.
Proof.
  destruct (opposite_rays_angle (-1, 0) (0, 0) (1, 0) 1)
    as (_ & H & _ & Hlt); cbn [fst snd].
  - lra.
  - intros [= H]. lra.
  - lra.
  - lra.
  - eexists. split; [exact H | exact Hlt].
Qed.

(** C9, amended.  For a collinear triple with [p1] and [p3] on strictly
    opposite sides of the vertex, [calculate_angle] returns
    [degrees (acos (-m / (m + 1e-6)))] with [m = |v1| * |v2| > 0]: strictly
    between 90 and 180, never 180 itself. *)
Theorem opposite_rays_below_180 (p1 p2 p3 : Vec) (k : R) :
  0 < k → p1 ≠ p2 →
  p3.1 - p2.1 = - k * (p1.1 - p2.1) →
  p3.2 - p2.2 = - k * (p1.2 - p2.2) →
  let m := norm (p1.1 - p2.1, p1.2 - p2.2) * norm (p3.1 - p2.1, p3.2 - p2.2) in
  0 < m
  ∧ calculate_angle p1 p2 p3 = Ok (degrees (acos (- m / (m + eps))))
  ∧ 90 < degrees (acos (- m / (m + eps))) < 180.
Proof. apply opposite_rays_angle. Qed.
End GeometryFacts.

(** The triple (-1, 0), (0, 0), (1, 0). *)
Lemma opposite_rays_below_180_witness :
  let m := (Geometry.norm (-1 - 0, 0 - 0) * Geometry.norm (1 - 0, 0 - 0))%R in
  (0 < m)%R
  ∧ Geometry.calculate_angle (-1, 0)%R (0, 0)%R (1, 0)%R
    = Ok (Geometry.degrees (acos (- m / (m + Geometry.eps))))
  ∧ (90 < Geometry.degrees (acos (- m / (m + Geometry.eps))) < 180)%R.
Proof.
  apply (opposite_rays_below_180 (-1, 0)%R (0, 0)%R (1, 0)%R 1%R).
  - lra.
  - intros [= H]. lra.
  - cbn. lra.
  - cbn. lra.
Defined.

(** ** Smoothing *)

Lemma smooth_window_nonzero (n : nat) (window : Z) (i : nat) :
  (i < n)%nat →
  (Z.min (Z.of_nat n) (Z.of_nat i + window / 2 + 1)
   - Z.max 0 (Z.of_nat i - window / 2) ≠ 0)%Z.
Proof. intros Hi. generalize (window / 2)%Z. intros h. lia. Qed.

Lemma smooth_at_Ok values window (i : nat) :
  (i < length values)%nat →
  ∃ x, smooth_at values window (Z.of_nat i) = Ok x.
Proof.
  intros Hi. unfold smooth_at, Qdiv_int.
  pose proof (smooth_window_nonzero (length values) window i Hi) as H.
  apply Z.eqb_neq in H. rewrite H. by eexists.
Qed.

Lemma smooth_loop_Ok values window indices :
  (∀ i, i ∈ indices → (i < length values)%nat) →
  ∃ r, smooth_loop values window indices = Ok r
       ∧ length r = length indices.
Proof.
  induction indices as [| i rest IH]; intros Hin; cbn.
  - by exists [].
  - destruct (smooth_at_Ok values window i) as [x ->]; [apply Hin; constructor |].
    destruct IH as (r & -> & Hlen); [intros j Hj; apply Hin; by constructor |].
    cbn. exists (x :: r). cbn. by rewrite Hlen.
Qed.

(** X1.  [smooth] never raises, whatever the window (also zero or
    negative), and returns as many values as it was given. *)
Theorem smooth_length (values : list Q) (window : Z) :
  ∃ r, smooth values window = Ok r ∧ length r = length values.
Proof.
  unfold smooth.
  destruct (smooth_loop_Ok values window (seq 0 (length values)))
    as (r & Hr & Hlen).
  - intros i Hi%elem_of_seq. lia.
  - exists r. by rewrite Hr, Hlen, length_seq.
Qed.

Lemma Qsum_acc (l : list Q) : ∀ acc, foldl Qplus acc l == acc + Qsum l.
Proof.
  unfold Qsum. induction l as [| x l IH]; intros acc; cbn.
  - lra.
  - rewrite (IH (acc + x)), (IH (0 + x)). lra.
Qed.

Lemma Qsum_cons x l : Qsum (x :: l) == x + Qsum l.
Proof. unfold Qsum at 1. cbn. rewrite Qsum_acc. lra. Qed.

Lemma Qsum_bounds (lo hi : Q) (l : list Q) :
  (∀ v, v ∈ l → lo <= v <= hi) →
  inject_Z (Z.of_nat (length l)) * lo <= Qsum l
  ∧ Qsum l <= inject_Z (Z.of_nat (length l)) * hi.
Proof.
  induction l as [| x l IH]; intros Hl.
  - unfold Qsum. cbn [foldl length].
    change (inject_Z (Z.of_nat 0)) with 0. split; lra.
  - destruct IH as [IH1 IH2]; [intros v Hv; apply Hl; by constructor |].
    destruct (Hl x) as [Hx1 Hx2]; [constructor |].
    rewrite Qsum_cons. cbn [length]. rewrite Nat2Z.inj_succ.
    unfold Z.succ. rewrite inject_Z_plus.
    change (inject_Z 1) with 1. split; lra.
Qed.

Lemma py_slice_inner {A} (l : list A) (start stop : Z) :
  (0 ≤ start ≤ stop)%Z → (stop ≤ Z.of_nat (length l))%Z →
  py_slice l start stop
  = take (Z.to_nat (stop - start)) (drop (Z.to_nat start) l)
  ∧ length (py_slice l start stop) = Z.to_nat (stop - start).
Proof.
  intros H1 H2. unfold py_slice.
  assert ((start <? 0)%Z = false) as -> by lia.
  assert ((stop <? 0)%Z = false) as -> by lia.
  rewrite !Z.min_l by lia. split; [done |].
  rewrite length_take, length_drop. lia.
Qed.

Lemma py_slice_elem_of {A} (l : list A) (start stop : Z) x :
  x ∈ py_slice l start stop → x ∈ l.
Proof.
  unfold py_slice. intros H. by apply subseteq_take, subseteq_drop in H.
Qed.

Lemma smooth_at_bounds (lo hi : Q) values window (i : nat) :
  (0 ≤ window)%Z → (i < length values)%nat →
  (∀ v, v ∈ values → lo <= v <= hi) →
  ∃ x, smooth_at values window (Z.of_nat i) = Ok x ∧ lo <= x <= hi.
Proof.
  intros Hw Hi Hb. unfold smooth_at, Qdiv_int.
  assert (Hh : (0 ≤ window / 2)%Z) by (apply Z.div_pos; lia).
  set (start := Z.max 0 (Z.of_nat i - window / 2)).
  set (stop := Z.min (Z.of_nat (length values)) (Z.of_nat i + window / 2 + 1)).
  assert (Hk : (0 ≤ start ∧ start < stop ∧ stop ≤ Z.of_nat (length values))%Z)
    by (subst start stop; lia).
  destruct (py_slice_inner values start stop) as [_ Hlen]; [lia | lia |].
  assert ((stop - start =? 0)%Z = false) as -> by lia.
  eexists. split; [done |].
  destruct (Qsum_bounds lo hi (py_slice values start stop)) as [H1 H2].
  { intros v Hv. apply Hb. by eapply py_slice_elem_of. }
  rewrite Hlen, Z2Nat.id in H1, H2 by lia.
  assert (Hpos : 0 < inject_Z (stop - start)).
  { rewrite <- (Zlt_Qlt 0). lia. }
  split.
  - apply Qle_shift_div_l; [done |]. lra.
  - apply Qle_shift_div_r; [done |]. lra.
Qed.

Lemma smooth_loop_bounds (lo hi : Q) values window indices :
  (0 ≤ window)%Z →
  (∀ v, v ∈ values → lo <= v <= hi) →
  (∀ i, i ∈ indices → (i < length values)%nat) →
  ∃ r, smooth_loop values window indices = Ok r
       ∧ ∀ x, x ∈ r → lo <= x <= hi.
Proof.
  intros Hw Hb. induction indices as [| i rest IH]; intros Hin; cbn.
  - exists []. split; [done |]. by intros x ?%elem_of_nil.
  - destruct (smooth_at_bounds lo hi values window i) as (x & -> & Hx);
      [done | apply Hin; constructor | done |].
    destruct IH as (r & -> & Hr); [intros j Hj; apply Hin; by constructor |].
    cbn. exists (x :: r). split; [done |].
    intros y [-> | Hy]%elem_of_cons; [done | by apply Hr].
Qed.

(** X2.  With a window of 0 or more, every smoothed value is a mean of
    input values: it lies between any two bounds that hold for the whole
    input, so smoothing never overshoots. *)
Theorem smooth_within_bounds (lo hi : Q) (values : list Q) (window : Z) :
  (0 ≤ window)%Z →
  (∀ v, v ∈ values → lo <= v <= hi) →
  ∃ r, smooth values window = Ok r ∧ ∀ x, x ∈ r → lo <= x <= hi.
Proof.
  intros Hw Hb. apply smooth_loop_bounds; [done | done |].
  intros i Hi%elem_of_seq. lia.
Qed.

Lemma smooth_within_bounds_witness :
  ∃ r, smooth [0; 3; 6; 9] 3 = Ok r ∧ ∀ x, x ∈ r → 0 <= x <= 9.
Proof.
  apply (smooth_within_bounds 0 9 [0; 3; 6; 9] 3).
  - lia.
  - intros v Hv. repeat (apply elem_of_cons in Hv as [-> | Hv]; [lra |]).
    by apply elem_of_nil in Hv.
Defined.

Lemma smooth_loop_lookup values window indices r k i :
  smooth_loop values window indices = Ok r →
  indices !! k = Some i →
  ∃ x, r !! k = Some x ∧ smooth_at values window (Z.of_nat i) = Ok x.
Proof.
  revert r k. induction indices as [| j rest IH]; intros r k Hr Hk; [done |].
  cbn in Hr.
  destruct (smooth_at values window (Z.of_nat j)) as [x |] eqn:Ex; [| done].
  destruct (smooth_loop values window rest) as [r' |] eqn:Er; [| done].
  cbn in Hr. injection Hr as <-.
  destruct k as [| k]; cbn in *.
  - injection Hk as <-. by exists x.
  - by apply IH.
Qed.

Lemma smooth_at_narrow values window (i : nat) v :
  (window = 0 ∨ window = 1)%Z → values !! i = Some v →
  ∃ x, smooth_at values window (Z.of_nat i) = Ok x ∧ x == v.
Proof.
  intros Hw Hv. apply lookup_lt_Some in Hv as Hi.
  unfold smooth_at, Qdiv_int.
  assert (window / 2 = 0)%Z as -> by (destruct Hw as [-> | ->]; done).
  rewrite Z.sub_0_r, Z.add_0_r.
  rewrite Z.max_r, Z.min_r by lia.
  destruct (py_slice_inner values (Z.of_nat i) (Z.of_nat i + 1))
    as [-> _]; [lia | lia |].
  replace (Z.of_nat i + 1 - Z.of_nat i)%Z with 1%Z by lia.
  rewrite Nat2Z.id. change (Z.to_nat 1) with 1%nat.
  rewrite (drop_S _ v) by done. cbn.
  eexists. split; [done |]. unfold Qsum. rewrite take_0. cbn [foldl].
  change (inject_Z 1) with 1. field.
Qed.

(** X3.  A window of 0 or 1 smooths nothing: every value is returned
    unchanged. *)
Theorem smooth_narrow_window (values : list Q) (window : Z) :
  (window = 0 ∨ window = 1)%Z →
  ∃ r, smooth values window = Ok r
       ∧ length r = length values
       ∧ ∀ i v, values !! i = Some v → ∃ x, r !! i = Some x ∧ x == v.
Proof.
  intros Hw. unfold smooth.
  destruct (smooth_loop_Ok values window (seq 0 (length values)))
    as (r & Hr & Hlen); [intros i Hi%elem_of_seq; lia |].
  rewrite length_seq in Hlen.
  exists r. split_and!; [done | done |].
  intros i v Hv. apply lookup_lt_Some in Hv as Hi.
  destruct (smooth_loop_lookup values window _ r i i Hr) as (x & Hx & Hat).
  { by apply lookup_seq_lt. }
  destruct (smooth_at_narrow values window i v Hw Hv) as (x' & Hat' & Heq).
  rewrite Hat in Hat'. injection Hat' as <-. by exists x.
Qed.

Lemma smooth_narrow_window_witness :
  ∃ r, smooth [0; 3; 6; 9] 1 = Ok r
       ∧ length r = length [0; 3; 6; 9]
       ∧ ∀ i v, [0; 3; 6; 9] !! i = Some v → ∃ x, r !! i = Some x ∧ x == v.
Proof. apply (smooth_narrow_window [0; 3; 6; 9] 1). by right. Defined.

(** ** Valleys *)

Lemma elem_of_find_peaks values min_distance threshold i :
  i ∈ find_peaks values min_distance threshold →
  (1 ≤ i)%nat ∧ (i + 1 < length values)%nat
  ∧ is_local_maximum values i = true
  ∧ below_threshold threshold values i = false.
Proof.
  unfold find_peaks. destruct (length values <? 3)%nat eqn:E.
  - by intros ?%elem_of_nil.
  - apply Nat.ltb_ge in E. intros [Hi Hacc]%elem_of_find_peaks_loop.
    unfold accepts in Hacc.
    apply andb_true_iff in Hacc as [[H1 H2%negb_true_iff]%andb_true_iff _].
    split_and!; try done; lia.
Qed.

Lemma find_peaks_spaced values min_distance threshold j k a b :
  (j < k)%nat →
  find_peaks values min_distance threshold !! j = Some a →
  find_peaks values min_distance threshold !! k = Some b →
  (a < b)%nat ∧ (min_distance ≤ Z.of_nat b - Z.of_nat a)%Z.
Proof.
  unfold find_peaks. destruct (length values <? 3)%nat; [done |].
  apply (inv_spaced _ _ _ (loop_inv_holds _ _ _ _)).
Qed.

(** X4.  Every index returned by [find_valleys] is an inner index whose
    value is strictly below its left neighbour and not above its right
    neighbour, and not above the threshold when one is given; the indices
    increase and any two are at least [min_distance] apart. *)
Theorem find_valleys_minima (values : list Q) (min_distance : Z)
    (threshold : option Q) :
  let valleys := find_valleys values min_distance threshold in
  (∀ i, i ∈ valleys →
     (1 ≤ i)%nat
     ∧ ∃ before here after,
         values !! (i - 1)%nat = Some before
         ∧ values !! i = Some here
         ∧ values !! (i + 1)%nat = Some after
         ∧ here < before ∧ here <= after
         ∧ ∀ t, threshold = Some t → here <= t)
  ∧ (∀ j k a b, (j < k)%nat → valleys !! j = Some a → valleys !! k = Some b →
       (a < b)%nat ∧ (min_distance ≤ Z.of_nat b - Z.of_nat a)%Z).
Proof.
  intros valleys. subst valleys. unfold find_valleys. split.
  - intros i (H1 & _ & Hmax & Hth)%elem_of_find_peaks.
    split; [done |].
    unfold is_local_maximum in Hmax. unfold below_threshold in Hth.
    rewrite !list_lookup_fmap in Hmax. rewrite list_lookup_fmap in Hth.
    destruct (values !! (i - 1)%nat) as [before |]; [| done].
    destruct (values !! i) as [here |]; [| done].
    destruct (values !! (i + 1)%nat) as [after |]; [| done].
    cbn in Hmax, Hth.
    apply andb_true_iff in Hmax as [Hl%Qltb_lt Hr%Qleb_le].
    exists before, here, after. split_and!; try done; try lra.
    intros t ->. cbn in Hth. apply Qltb_ge in Hth. lra.
  - apply find_peaks_spaced.
Qed.

Lemma natQ_nonneg n : 0 <= natQ n.
Proof. unfold natQ. rewrite <- (Zle_Qle 0). lia. Qed.

Lemma natQ_pos n : (n ≠ 0)%nat → 0 < natQ n.
Proof. intros H. unfold natQ. rewrite <- (Zlt_Qlt 0). lia. Qed.

Lemma natQ_add a b : natQ (a + b) == natQ a + natQ b.
Proof. unfold natQ. by rewrite Nat2Z.inj_add, inject_Z_plus. Qed.

Lemma Qdiv_py_nonzero x y : ¬ y == 0 → Qdiv_py x y = Ok (x / y).
Proof.
  intros H. unfold Qdiv_py. destruct (Qeq_bool y 0) eqn:E; [| done].
  by apply Qeq_bool_eq in E.
Qed.

Lemma Qeq_bool_false x y : ¬ x == y → Qeq_bool x y = false.
Proof.
  intros H. destruct (Qeq_bool x y) eqn:E; [| done].
  by apply Qeq_bool_eq in E.
Qed.

(** A ratio [a / (a + b)] of counters, as [precision] and [recall] compute
    it. *)
Lemma ratio_cases (a b : nat) :
  ∃ q, (if (a + b =? 0)%nat then Ok 0
        else Qdiv_py (natQ a) (natQ (a + b))) = Ok q
       ∧ 0 <= q <= 1
       ∧ (a = 0%nat → q == 0)
       ∧ (a ≠ 0%nat → q == natQ a / (natQ a + natQ b) ∧ 0 < q).
Proof.
  destruct (a + b =? 0)%nat eqn:E.
  - apply Nat.eqb_eq in E. exists 0.
    split; [done |]. split; [split; lra |]. split; [done |].
    intros; lia.
  - apply Nat.eqb_neq in E. pose proof (natQ_pos _ E) as Hpos.
    pose proof (natQ_nonneg a) as Ha. pose proof (natQ_nonneg b) as Hb.
    rewrite Qdiv_py_nonzero by lra. eexists. split; [done |].
    rewrite natQ_add in *.
    split_and!.
    + apply Qle_shift_div_l; lra.
    + apply Qle_shift_div_r; lra.
    + intros ->. change (natQ 0) with 0 in *. field. lra.
    + intros Hne. split; [done |]. pose proof (natQ_pos _ Hne).
      apply Qlt_shift_div_l; lra.
Qed.

Lemma metrics_values (m : AlgorithmMetrics) :
  let tp := natQ (true_positives m) in
  let fp := natQ (false_positives m) in
  let fn := natQ (false_negatives m) in
  ∃ p r f,
    precision m = Ok p ∧ recall m = Ok r ∧ f1 m = Ok f
    ∧ 0 <= p <= 1 ∧ 0 <= r <= 1 ∧ 0 <= f <= 1
    ∧ (true_positives m = 0%nat → p == 0 ∧ r == 0 ∧ f == 0)
    ∧ (true_positives m ≠ 0%nat →
       p == tp / (tp + fp) ∧ r == tp / (tp + fn)
       ∧ f == 2 * tp / (2 * tp + fp + fn)).
Proof.
  intros tp fp fn.
  destruct (ratio_cases (true_positives m) (false_positives m))
    as (p & Hp & Hp01 & Hp0 & Hp1).
  destruct (ratio_cases (true_positives m) (false_negatives m))
    as (r & Hr & Hr01 & Hr0 & Hr1).
  fold (precision m) in Hp. fold (recall m) in Hr.
  unfold f1. rewrite Hp, Hr. cbn.
  destruct (decide (true_positives m = 0%nat)) as [Hz | Hnz].
  - assert (Qeq_bool (p + r) 0 = true) as ->.
    { apply Qeq_bool_iff. rewrite Hp0, Hr0 by done. lra. }
    exists p, r, 0. split_and!; try done; try lra.
    intros _. split_and!; [by apply Hp0 | by apply Hr0 | lra].
  - destruct (Hp1 Hnz) as [Ep Hpp]. destruct (Hr1 Hnz) as [Er Hrp].
    rewrite Qeq_bool_false by lra. rewrite Qdiv_py_nonzero by lra.
    pose proof (natQ_pos _ Hnz) as Htp. fold tp in Htp, Ep, Er.
    pose proof (natQ_nonneg (false_positives m)) as Hfp.
    pose proof (natQ_nonneg (false_negatives m)) as Hfn.
    fold fp in Hfp, Ep. fold fn in Hfn, Er.
    assert (Ef : 2 * (p * r) / (p + r) == 2 * tp / (2 * tp + fp + fn)).
    { rewrite Ep, Er. field. split_and!; try lra.
      assert (0 < tp * (tp + fn)) by (apply Qmult_lt_0_compat; lra).
      assert (0 < tp * (tp + fp)) by (apply Qmult_lt_0_compat; lra).
      lra. }
    eexists p, r, _. split_and!; try done; try lra.
    + rewrite Ef. apply Qle_shift_div_l; lra.
    + rewrite Ef. apply Qle_shift_div_r; lra.
Qed.

(** X5.  [precision], [recall] and [f1] never raise (a zero denominator
    gives 0) and lie in [0, 1].  Without a true positive all three are 0;
    with one, precision is tp/(tp+fp), recall is tp/(tp+fn) and F1 is
    2tp/(2tp+fp+fn). *)
Theorem metrics_ratios (m : AlgorithmMetrics) :
  let tp := natQ (true_positives m) in
  let fp := natQ (false_positives m) in
  let fn := natQ (false_negatives m) in
  ∃ p r f,
    precision m = Ok p ∧ recall m = Ok r ∧ f1 m = Ok f
    ∧ 0 <= p <= 1 ∧ 0 <= r <= 1 ∧ 0 <= f <= 1
    ∧ (true_positives m = 0%nat → p == 0 ∧ r == 0 ∧ f == 0)
    ∧ (true_positives m ≠ 0%nat →
       p == tp / (tp + fp) ∧ r == tp / (tp + fn)
       ∧ f == 2 * tp / (2 * tp + fp + fn)).
Proof. apply metrics_values. Qed.

(** ** Accounting of the evaluator *)

Lemma length_filter_complement {A} (P : A → Prop) `{∀ x, Decision (P x)}
    (l : list A) :
  (length (filter P l) + length (filter (λ x, ¬ P x) l) = length l)%nat.
Proof.
  rewrite <- length_app. apply Permutation_length, filter_app_complement.
Qed.

Lemma size_filter_complement (P : Z → Prop) `{∀ x, Decision (P x)}
    (X : gset Z) :
  (size (filter P X) + size (filter (λ x, ¬ P x) X) = size X)%nat.
Proof. rewrite !size_filter. apply length_filter_complement. Qed.

Lemma size_filter_le (P : Z → Prop) `{∀ x, Decision (P x)} (X : gset Z) :
  (size (filter P X) ≤ size X)%nat.
Proof. rewrite size_filter. apply length_filter. Qed.

Lemma size_list_to_set_bound (l : list Z) :
  (size (list_to_set l : gset Z) ≤ length l)%nat.
Proof.
  induction l as [| x l IH]; cbn [list_to_set length].
  - by rewrite size_empty.
  - rewrite size_union_alt, size_singleton.
    assert (size (list_to_set l ∖ {[x]} : gset Z) ≤ size (list_to_set l : gset Z))%nat
      by (apply subseteq_size; set_solver).
    lia.
Qed.

Lemma count_detected_errors (gts ds : list Z) : ∀ m,
  (length (position_errors (foldl (count_detected gts) m ds))
   + false_positives m
   = length (position_errors m)
     + false_positives (foldl (count_detected gts) m ds))%nat.
Proof.
  induction ds as [| d ds IH]; intros m; cbn [foldl]; [lia |].
  specialize (IH (count_detected gts m d)). unfold count_detected in *.
  destruct (match_any d gts); cbn in IH; [lia |].
  rewrite length_app in IH. cbn in IH. lia.
Qed.

Lemma count_missed_errors (ds gts : list Z) : ∀ m,
  (length (position_errors (foldl (count_missed ds) m gts))
   + false_negatives m
   = length (position_errors m)
     + false_negatives (foldl (count_missed ds) m gts))%nat.
Proof.
  induction gts as [| g gts IH]; intros m; cbn [foldl]; [lia |].
  specialize (IH (count_missed ds m g)). unfold count_missed in *.
  destruct (existsb _ ds); cbn in IH; [lia |].
  rewrite length_app in IH. cbn in IH. lia.
Qed.

(** X6.  The counters of [evaluate_algorithm] add up: every distinct
    detected frame of the position is either a true or a false positive, the
    false negatives are at most the distinct annotated frames, one error is
    recorded per false positive and per false negative, and [total_frames]
    is the number of results. *)
Theorem evaluate_accounting (results : list DetectionResult)
    (ground_truth : list GroundTruth) (position : string) :
  let m := evaluate_algorithm results ground_truth position in
  (true_positives m + false_positives m
   = size (detected_frames_of results position))%nat
  ∧ (false_negatives m ≤ size (gt_frames_of ground_truth position))%nat
  ∧ (length (position_errors m) = false_positives m + false_negatives m)%nat
  ∧ total_frames m = length results
  ∧ (size (detected_frames_of results position) ≤ length results)%nat.
Proof.
  intros m.
  destruct (evaluate_algorithm_counts results ground_truth position)
    as (Htp & Hfp & Hfn & Htot).
  fold m in Htp, Hfp, Hfn, Htot. rewrite Htp, Hfp, Hfn.
  split_and!.
  - apply size_filter_complement.
  - apply size_filter_le.
  - rewrite <- Hfp, <- Hfn. subst m. unfold evaluate_algorithm. cbv zeta.
    set (D := detected_frames_of results position).
    set (G := gt_frames_of ground_truth position).
    set (m0 := mkAlgorithmMetrics 0 0 0 (length results) []).
    pose proof (count_missed_errors (elements D) (elements G)
                  (foldl (count_detected (elements G)) m0 (elements D))) as H2.
    pose proof (count_detected_errors (elements G) (elements D) m0) as H1.
    destruct (count_missed_fold (elements D) (elements G)
                (foldl (count_detected (elements G)) m0 (elements D)))
      as (_ & E2 & _).
    destruct (count_detected_fold (elements G) (elements D) m0)
      as (_ & _ & E3 & _).
    cbn zeta in E2, E3. rewrite E2. cbn in H1, E3. lia.
  - done.
  - unfold detected_frames_of.
    etrans; [apply size_list_to_set_bound |].
    rewrite length_fmap. apply length_filter.
Qed.

Lemma filter_all (P : Z → Prop) `{∀ x, Decision (P x)} (X : gset Z) :
  (∀ x, x ∈ X → P x) → filter P X = X.
Proof. intros H0. apply set_eq. intros x. rewrite elem_of_filter. naive_solver. Qed.

Lemma filter_none (P : Z → Prop) `{∀ x, Decision (P x)} (X : gset Z) :
  (∀ x, x ∈ X → ¬ P x) → filter P X = ∅.
Proof. intros H0. apply set_eq. intros x. rewrite elem_of_filter. set_solver. Qed.

(** X7.  When every detected frame of the position has an annotated frame
    within two frames of it, and every annotated frame a detected one, there
    is no false positive and no false negative; with at least one detection
    precision, recall and F1 are all 1. *)
Theorem evaluate_full_agreement (results : list DetectionResult)
    (ground_truth : list GroundTruth) (position : string) :
  let m := evaluate_algorithm results ground_truth position in
  let D := detected_frames_of results position in
  let G := gt_frames_of ground_truth position in
  (∀ d, d ∈ D → near G d) →
  (∀ g, g ∈ G → near D g) →
  D ≠ ∅ →
  true_positives m = size D
  ∧ false_positives m = 0%nat
  ∧ false_negatives m = 0%nat
  ∧ ∃ p r f, precision m = Ok p ∧ recall m = Ok r ∧ f1 m = Ok f
             ∧ p == 1 ∧ r == 1 ∧ f == 1.
Proof.
  intros m D G HD HG Hne.
  destruct (evaluate_algorithm_counts results ground_truth position)
    as (Htp & Hfp & Hfn & _).
  fold m D G in Htp, Hfp, Hfn.
  rewrite filter_all in Htp by done.
  rewrite filter_none in Hfp by (intros d Hd Hn; apply Hn, HD, Hd).
  rewrite filter_none in Hfn by (intros g Hg Hn; apply Hn, HG, Hg).
  rewrite size_empty in Hfp, Hfn.
  split_and!; try done.
  assert (Hpos : true_positives m ≠ 0%nat).
  { rewrite Htp. intros H0%size_empty_inv. apply Hne. by apply leibniz_equiv. }
  destruct (metrics_values m) as (p & r & f & Hp & Hr & Hf & _ & _ & _ & _ & H1).
  destruct (H1 Hpos) as (Ep & Er & Ef).
  exists p, r, f. split_and!; try done.
  - rewrite Ep, Hfp. change (natQ 0) with 0.
    pose proof (natQ_pos _ Hpos). field. lra.
  - rewrite Er, Hfn. change (natQ 0) with 0.
    pose proof (natQ_pos _ Hpos). field. lra.
  - rewrite Ef, Hfp, Hfn. change (natQ 0) with 0.
    pose proof (natQ_pos _ Hpos). field. lra.
Qed.

Lemma evaluate_full_agreement_witness :
  let results := [detection 9 (Some "top"); detection 11 (Some "top")] in
  let ground_truth := [annotation 10 "top"] in
  let m := evaluate_algorithm results ground_truth "top" in
  true_positives m = size (detected_frames_of results "top")
  ∧ false_positives m = 0%nat
  ∧ false_negatives m = 0%nat
  ∧ ∃ p r f, precision m = Ok p ∧ recall m = Ok r ∧ f1 m = Ok f
             ∧ p == 1 ∧ r == 1 ∧ f == 1.
Proof.
  intros results ground_truth m.
  apply (evaluate_full_agreement results ground_truth "top").
  - intros d (r & Hr & _ & <-)%elem_of_detected_frames_of.
    repeat (apply elem_of_cons in Hr as [-> | Hr];
            [apply (bool_decide_unpack _); by vm_compute |]).
    by apply elem_of_nil in Hr.
  - intros g (a & Ha & _ & <-)%elem_of_gt_frames_of.
    repeat (apply elem_of_cons in Ha as [-> | Ha];
            [apply (bool_decide_unpack _); by vm_compute |]).
    by apply elem_of_nil in Ha.
  - apply (bool_decide_unpack _). by vm_compute.
Defined.

(** X8.  The counts depend on the results and annotations only as sets:
    reordering them or repeating one changes no counter. *)
Theorem evaluate_order_and_repeats (results results' : list DetectionResult)
    (ground_truth ground_truth' : list GroundTruth) (position : string) :
  (∀ r, r ∈ results ↔ r ∈ results') →
  (∀ a, a ∈ ground_truth ↔ a ∈ ground_truth') →
  counts (evaluate_algorithm results ground_truth position)
  = counts (evaluate_algorithm results' ground_truth' position).
Proof.
  intros Hr Ha.
  assert (HD : detected_frames_of results position
               = detected_frames_of results' position).
  { apply set_eq. intros d. rewrite !elem_of_detected_frames_of.
    by setoid_rewrite Hr. }
  assert (HG : gt_frames_of ground_truth position
               = gt_frames_of ground_truth' position).
  { apply set_eq. intros g. rewrite !elem_of_gt_frames_of.
    by setoid_rewrite Ha. }
  destruct (evaluate_algorithm_counts results ground_truth position)
    as (Htp & Hfp & Hfn & _).
  destruct (evaluate_algorithm_counts results' ground_truth' position)
    as (Htp' & Hfp' & Hfn' & _).
  unfold counts. rewrite Htp, Hfp, Hfn, Htp', Hfp', Hfn'.
  by rewrite HD, HG.
Qed.

Lemma evaluate_order_and_repeats_witness :
  counts (evaluate_algorithm
            [detection 11 (Some "top"); detection 20 (Some "top")]
            [annotation 10 "top"] "top")
  = counts (evaluate_algorithm
              [detection 20 (Some "top"); detection 11 (Some "top");
               detection 20 (Some "top")]
              [annotation 10 "top"; annotation 10 "top"] "top").
Proof.
  apply evaluate_order_and_repeats.
  - intros r. rewrite !elem_of_cons, !elem_of_nil. tauto.
  - intros a. rewrite !elem_of_cons, !elem_of_nil. tauto.
Defined.

(** ** Labels of the peak algorithm *)

(** What one call of [_detect_peak] does to the two gates. *)
Lemma peak_step_gates self i t a :
  let out := _detect_peak self i t a in
  ((last_top_frame out.1 = last_top_frame self
    ∨ (last_top_frame out.1 = i ∧ (10 < i - last_top_frame self)%Z))
   ∧ (detected_position out.2 = Some "top" →
      last_top_frame out.1 = i ∧ (10 < i - last_top_frame self)%Z))
  ∧ ((last_bottom_frame out.1 = last_bottom_frame self
      ∨ (last_bottom_frame out.1 = i ∧ (10 < i - last_bottom_frame self)%Z))
     ∧ (detected_position out.2 = Some "bottom" →
        last_bottom_frame out.1 = i ∧ (10 < i - last_bottom_frame self)%Z)).
Proof.
  intros out. subst out. unfold _detect_peak.
  repeat case_match; simplify_eq/=;
    repeat match goal with
           | H : (_ <? _)%Z = true |- _ => apply Z.ltb_lt in H
           end;
    naive_solver.
Qed.

(** X9.  Label, confidence and flags of a result of the peak algorithm
    belong together: "top" comes with confidence 0.9 and the arm-peak flag,
    "bottom" with 0.9 and the spine-peak flag, "connect" and "release" with
    0.5, no label with 0; there is no other label. *)
Theorem peak_result_consistent (self : PositionDetector) (i : Z) (t : Q)
    (a : gmap string Q) :
  let r := (_detect_peak self i t a).2 in
  (detected_position r = Some "top" ∧ confidence r = 0.9
   ∧ is_arm_peak r = true)
  ∨ (detected_position r = Some "bottom" ∧ confidence r = 0.9
     ∧ is_spine_peak r = true)
  ∨ (detected_position r = Some "connect" ∧ confidence r = 0.5)
  ∨ (detected_position r = Some "release" ∧ confidence r = 0.5)
  ∨ (detected_position r = None ∧ confidence r = 0).
Proof.
  intros r. subst r. unfold _detect_peak.
  repeat case_match; simplify_eq/=; naive_solver.
Qed.

Section PeakRuns.
Variable angle_math : Landmarks Q → gmap string Q.

Lemma detect_all_gated frames : ∀ self,
  algorithm self = "peak" →
  ∃ self' rs,
    detect_all angle_math self frames = Ok (self', rs)
    ∧ (∀ r, r ∈ rs →
         (detected_position r = Some "top" →
          (10 < frame_index r - last_top_frame self)%Z)
         ∧ (detected_position r = Some "bottom" →
            (10 < frame_index r - last_bottom_frame self)%Z))
    ∧ (∀ j k rj rk, (j < k)%nat → rs !! j = Some rj → rs !! k = Some rk →
         (detected_position rj = Some "top" →
          detected_position rk = Some "top" →
          (10 < frame_index rk - frame_index rj)%Z)
         ∧ (detected_position rj = Some "bottom" →
            detected_position rk = Some "bottom" →
            (10 < frame_index rk - frame_index rj)%Z)).
Proof.
  induction frames as [| [[i t] kps] frames IH]; intros self Halg.
  - exists self, []. split; [done |]. split; [by intros r ?%elem_of_nil |].
    by intros j k rj rk _ ?.
  - cbn [detect_all].
    destruct (detect_peak angle_math self i t kps Halg) as (a & _ & ->). cbn.
    destruct (peak_result_fields self i t a) as (Hi & _ & _ & Halg').
    destruct (peak_step_gates self i t a) as [[Ht1 Ht2] [Hb1 Hb2]].
    destruct (IH (_detect_peak self i t a).1) as (self' & rs & -> & Hall & Hpair);
      [congruence |].
    cbn. eexists _, _. split; [done |]. cbn. split.
    + intros r [-> | Hr]%elem_of_cons.
      * rewrite Hi. split; [intros H; by apply Ht2 | intros H; by apply Hb2].
      * destruct (Hall r Hr) as [Hrt Hrb]. split; intros H.
        -- specialize (Hrt H). lia.
        -- specialize (Hrb H). lia.
    + intros j k rj rk Hjk Hj Hk.
      destruct k as [| k]; [lia |]. cbn in Hk.
      destruct j as [| j]; cbn in Hj.
      * injection Hj as <-. rewrite Hi.
        destruct (Hall rk) as [Hrt Hrb]; [by eapply list_elem_of_lookup_2 |].
        split; intros H1 H2.
        -- specialize (Hrt H2). destruct (Ht2 H1) as [E _]. lia.
        -- specialize (Hrb H2). destruct (Hb2 H1) as [E _]. lia.
      * apply (Hpair j k); [lia | done | done].
Qed.

(** X10.  In any run of [detect] with the peak algorithm, from any detector
    state, two results labelled "top" are more than 10 frame indices apart
    (the later minus the earlier), and so are two results labelled
    "bottom". *)
Theorem peak_labels_spaced (self : PositionDetector)
    (frames : list (Z * Q * list (Keypoint Q))) :
  algorithm self = "peak" →
  ∃ self' rs,
    detect_all angle_math self frames = Ok (self', rs)
    ∧ ∀ j k rj rk, (j < k)%nat → rs !! j = Some rj → rs !! k = Some rk →
        (detected_position rj = Some "top" →
         detected_position rk = Some "top" →
         (10 < frame_index rk - frame_index rj)%Z)
        ∧ (detected_position rj = Some "bottom" →
           detected_position rk = Some "bottom" →
           (10 < frame_index rk - frame_index rj)%Z).
Proof.
  intros Halg.
  destruct (detect_all_gated frames self Halg) as (self' & rs & Hrun & _ & H).
  by exists self', rs.
Qed.
End PeakRuns.

Lemma peak_labels_spaced_witness :
  ∃ self' rs,
    detect_all spine_held_at_70 (fresh_detector "peak") two_bumps_poses
    = Ok (self', rs)
    ∧ ∀ j k rj rk, (j < k)%nat → rs !! j = Some rj → rs !! k = Some rk →
        (detected_position rj = Some "top" →
         detected_position rk = Some "top" →
         (10 < frame_index rk - frame_index rj)%Z)
        ∧ (detected_position rj = Some "bottom" →
           detected_position rk = Some "bottom" →
           (10 < frame_index rk - frame_index rj)%Z).
Proof.
  apply (peak_labels_spaced spine_held_at_70 (fresh_detector "peak")
           two_bumps_poses).
  reflexivity.
Defined.

(** X11.  After [reset] the peak algorithm needs history: the first frame
    gets no label, confidence 0 and no peak flag; the second frame gets no
    peak flag and no "top" or "bottom", only the slope labels: "connect"
    when the spine angle rose by more than 2 since the first frame,
    "release" when it fell by more than 2. *)
Theorem peak_first_frames (self : PositionDetector) (i1 i2 : Z) (t1 t2 : Q)
    (a1 a2 : gmap string Q) :
  let out1 := _detect_peak (reset self) i1 t1 a1 in
  let out2 := _detect_peak out1.1 i2 t2 a2 in
  (detected_position out1.2 = None ∧ confidence out1.2 = 0
   ∧ is_arm_peak out1.2 = false ∧ is_spine_peak out1.2 = false)
  ∧ (is_arm_peak out2.2 = false ∧ is_spine_peak out2.2 = false)
  ∧ (detected_position out2.2 = Some "connect" ↔ spine_of a1 + 2 < spine_of a2)
  ∧ (detected_position out2.2 = Some "release" ↔
     ¬ spine_of a1 + 2 < spine_of a2 ∧ spine_of a2 < spine_of a1 - 2)
  ∧ (detected_position out2.2 = None ↔
     ¬ spine_of a1 + 2 < spine_of a2 ∧ ¬ spine_of a2 < spine_of a1 - 2).
Proof.
  intros out1 out2. subst out2 out1. unfold _detect_peak, reset. cbn.
  destruct (Qltb (spine_of a1 + 2) (spine_of a2)) eqn:E1;
    [apply Qltb_lt in E1 | apply Qltb_ge in E1].
  - cbn. split_and!; try done; split; try done; try lra.
    all: intros [? ?]; lra.
  - destruct (Qltb (spine_of a2) (spine_of a1 - 2)) eqn:E2;
      [apply Qltb_lt in E2 | apply Qltb_ge in E2]; cbn.
    + split_and!; try done; split; try done; try lra.
      all: try (intros [? ?]; lra). all: intros; split; lra.
    + split_and!; try done; split; try done; try lra.
      all: try (intros [? ?]; lra). all: intros; split; lra.
Qed.

(** ** The threshold algorithm, further *)

(** X12.  The threshold algorithm always gives one of the four labels and
    never sets a peak flag.  For a spine angle of 0 or more the confidence
    is in [0, 1]; a negative spine angle would give a "top" with confidence
    above 1. *)
Theorem threshold_label_and_confidence (self : PositionDetector) (i : Z)
    (t : Q) (a : gmap string Q) :
  let r := _detect_threshold self i t a in
  (detected_position r = Some "top" ∨ detected_position r = Some "bottom"
   ∨ detected_position r = Some "release"
   ∨ detected_position r = Some "connect")
  ∧ is_arm_peak r = false ∧ is_spine_peak r = false
  ∧ (0 <= spine_of a → 0 <= confidence r <= 1)
  ∧ (spine_of a < 0 →
     detected_position r = Some "top" ∧ 1 < confidence r).
Proof.
  intros r. subst r. unfold _detect_threshold.
  set (s := spine_of a).
  destruct (Qltb s 25) eqn:E1; [apply Qltb_lt in E1 | apply Qltb_ge in E1].
  { cbn. split_and!; try done; [by left | intros H | intros H].
    - assert (Hd : s / 25 == s * (1 # 25)) by (field; lra).
      rewrite Hd. split; lra.
    - split; [done |].
      assert (Hd : s / 25 == s * (1 # 25)) by (field; lra).
      rewrite Hd. lra. }
  destruct (Qltb 60 s) eqn:E2; [apply Qltb_lt in E2 | apply Qltb_ge in E2].
  { cbn. split_and!; try done; [right; by left | intros H | intros H; lra].
    unfold py_min.
    assert (Hd : (s - 60) / 30 == (s - 60) * (1 # 30)) by (field; lra).
    destruct (Qltb _ 1) eqn:E3; [apply Qltb_lt in E3 | split; lra].
    rewrite Hd in *. split; lra. }
  destruct (Qltb s 45) eqn:E3; cbn.
  - apply Qltb_lt in E3.
    split_and!; try done; try (intros H; first [lra | split; lra]).
    right; right; by left.
  - apply Qltb_ge in E3.
    split_and!; try done; try (intros H; first [lra | split; lra]).
    right; right; by right.
Qed.

(** ** Named and positional landmarks *)

Section LookupFacts.
Context {C : Type}.
Implicit Types (keypoints l : list (Keypoint C)) (kp : Keypoint C).

Lemma enumerate_snoc l kp :
  enumerate (l ++ [kp]) = enumerate l ++ [(length l, kp)].
Proof.
  unfold enumerate. rewrite imap_app. cbn. by rewrite Nat.add_0_r.
Qed.

Lemma name_map_snoc l kp :
  name_map (l ++ [kp]) = <[kp_key (length l) kp := kp]> (name_map l).
Proof. unfold name_map. by rewrite enumerate_snoc, foldl_snoc. Qed.

(** The keypoint a key maps to is the last one that carries it. *)
Lemma name_map_lookup l key kp :
  name_map l !! key = Some kp ↔
  ∃ i, l !! i = Some kp ∧ kp_key i kp = key
       ∧ ∀ j kp', (i < j)%nat → l !! j = Some kp' → kp_key j kp' ≠ key.
Proof.
  revert kp. induction l as [| x l IH] using rev_ind; intros kp.
  - unfold name_map. cbn. rewrite lookup_empty. split; [done |].
    by intros (i & ? & _).
  - rewrite name_map_snoc.
    destruct (decide (kp_key (length l) x = key)) as [Hk | Hk].
    + rewrite Hk, lookup_insert_eq. split.
      * intros [= <-]. exists (length l). split_and!; [| done |].
        -- by rewrite lookup_app_r, Nat.sub_diag by lia.
        -- intros j kp' Hj Hl. apply lookup_lt_Some in Hl.
           rewrite length_app in Hl. cbn in Hl. lia.
      * intros (i & Hi & Hkey & Hlast).
        destruct (decide (i = length l)) as [-> | Hne].
        -- rewrite lookup_app_r, Nat.sub_diag in Hi by lia. by injection Hi as ->.
        -- exfalso. apply lookup_lt_Some in Hi as Hlt.
           rewrite length_app in Hlt. cbn in Hlt.
           apply (Hlast (length l) x); [lia | | done].
           by rewrite lookup_app_r, Nat.sub_diag by lia.
    + rewrite lookup_insert_ne by done. rewrite IH. split.
      * intros (i & Hi & Hkey & Hlast). exists i.
        apply lookup_lt_Some in Hi as Hlt.
        split_and!; [by rewrite lookup_app_l by done | done |].
        intros j kp' Hj Hl.
        apply lookup_app_Some in Hl as [Hl | [Hge Hl]]; [by eapply Hlast |].
        apply list_lookup_singleton_Some in Hl as [Hj0 <-].
        by replace j with (length l) by lia.
      * intros (i & Hi & Hkey & Hlast).
        apply lookup_app_Some in Hi as [Hi | [Hge Hi]].
        -- exists i. split_and!; [done | done |].
           intros j kp' Hj Hl. apply (Hlast j kp' Hj).
           apply lookup_lt_Some in Hl as Hlt. by rewrite lookup_app_l.
        -- apply list_lookup_singleton_Some in Hi as [Hi0 <-].
           exfalso. apply Hk. by replace (length l) with i by lia.
Qed.

Lemma mediapipe_names_elem idx name :
  mediapipe_names !! idx = Some name →
  (idx, name) ∈
    [ (11%nat, "left_shoulder"); (12%nat, "right_shoulder");
      (13%nat, "left_elbow"); (14%nat, "right_elbow");
      (15%nat, "left_wrist"); (16%nat, "right_wrist");
      (23%nat, "left_hip"); (24%nat, "right_hip");
      (25%nat, "left_knee"); (26%nat, "right_knee");
      (27%nat, "left_ankle"); (28%nat, "right_ankle") ].
Proof. apply elem_of_list_to_map_2. Qed.

Lemma mediapipe_names_inj i j name :
  mediapipe_names !! i = Some name → mediapipe_names !! j = Some name → i = j.
Proof.
  intros Hi%mediapipe_names_elem Hj%mediapipe_names_elem.
  repeat (apply elem_of_cons in Hi as [Hi | Hi];
          [injection Hi as -> ->;
           repeat (apply elem_of_cons in Hj as [Hj | Hj];
                   [by injection Hj as -> |]);
           by apply elem_of_nil in Hj |]).
  by apply elem_of_nil in Hi.
Qed.

Lemma index_fallback_snoc l kp m :
  index_fallback (l ++ [kp]) m
  = fallback_step (index_fallback l m) (length l, kp).
Proof. unfold index_fallback. by rewrite enumerate_snoc, foldl_snoc. Qed.

(** Names already in the map are kept. *)
Lemma index_fallback_keeps l m name kp :
  m !! name = Some kp → index_fallback l m !! name = Some kp.
Proof.
  intros Hm. induction l as [| x l IH] using rev_ind; [done |].
  rewrite index_fallback_snoc. unfold fallback_step. cbn [fst snd].
  destruct (mediapipe_names !! length l) as [n |]; [| done].
  destruct (index_fallback l m !! n) eqn:E; [done |].
  rewrite lookup_insert_ne; [done |]. intros ->. congruence.
Qed.

(** A name missing from the map is taken from its position. *)
Lemma index_fallback_fills l m idx name :
  m !! name = None → mediapipe_names !! idx = Some name →
  index_fallback l m !! name = l !! idx.
Proof.
  intros Hm Hidx. induction l as [| x l IH] using rev_ind.
  - by rewrite lookup_nil.
  - rewrite index_fallback_snoc. unfold fallback_step. cbn [fst snd].
    destruct (decide (idx = length l)) as [-> | Hne].
    + rewrite Hidx, IH.
      rewrite (lookup_ge_None_2 l (length l)) by lia.
      by rewrite lookup_insert_eq, lookup_app_r, Nat.sub_diag by lia.
    + assert (Hother : ∀ n, mediapipe_names !! length l = Some n → n ≠ name).
      { intros n Hn ->. apply Hne. by eapply mediapipe_names_inj. }
      assert (Hl : (l ++ [x]) !! idx = l !! idx).
      { destruct (decide (idx < length l)%nat); [by rewrite lookup_app_l |].
        rewrite !lookup_ge_None_2; [done | lia |].
        rewrite length_app. cbn. lia. }
      rewrite Hl, <- IH.
      destruct (mediapipe_names !! length l) as [n |]; [| done].
      destruct (index_fallback l m !! n); [done |].
      rewrite lookup_insert_ne; [done |]. by apply Hother.
Qed.

(** Names outside the positional table are never added. *)
Lemma index_fallback_other l m name :
  (∀ idx, mediapipe_names !! idx ≠ Some name) →
  index_fallback l m !! name = m !! name.
Proof.
  intros Hno. induction l as [| x l IH] using rev_ind; [done |].
  rewrite index_fallback_snoc. unfold fallback_step. cbn [fst snd].
  destruct (mediapipe_names !! length l) as [n |] eqn:E; [| done].
  destruct (index_fallback l m !! n); [done |].
  rewrite lookup_insert_ne; [done |]. intros ->. by eapply Hno.
Qed.

(** X13.  The keypoint map of [compute_angles]: a name carried by a
    keypoint maps to the last keypoint that carries it, whatever its
    position; a landmark of the positional table that no keypoint names is
    taken from its BlazePose position when the list is long enough; no other
    name is added. *)
Theorem landmark_lookup_precedence (keypoints : list (Keypoint C)) :
  (∀ name kp, name_map keypoints !! name = Some kp →
     angle_kp_map keypoints !! name = Some kp)
  ∧ (∀ idx name, mediapipe_names !! idx = Some name →
       name_map keypoints !! name = None →
       angle_kp_map keypoints !! name = keypoints !! idx)
  ∧ (∀ name, (∀ idx, mediapipe_names !! idx ≠ Some name) →
       angle_kp_map keypoints !! name = name_map keypoints !! name)
  ∧ (∀ key kp, name_map keypoints !! key = Some kp ↔
       ∃ i, keypoints !! i = Some kp ∧ kp_key i kp = key
            ∧ ∀ j kp', (i < j)%nat → keypoints !! j = Some kp' →
                kp_key j kp' ≠ key).
Proof.
  unfold angle_kp_map. split_and!.
  - intros name kp. apply index_fallback_keeps.
  - intros idx name Hidx Hnone. by apply index_fallback_fills.
  - intros name. apply index_fallback_other.
  - intros key kp. apply name_map_lookup.
Qed.
End LookupFacts.

(** ** Wrist heights *)

Lemma unnamed_key_not_landmark (i : nat) (name : string) :
  name ∈ wrist_names → "kp_" +:+ pretty i ≠ name.
Proof.
  intros Hin Heq. unfold wrist_names in Hin.
  repeat (apply elem_of_cons in Hin as [-> | Hin]; [by cbn in Heq |]).
  by apply elem_of_nil in Hin.
Qed.

Lemma name_map_unnamed (keypoints : list (Keypoint Q)) (name : string) :
  (∀ kp, kp ∈ keypoints → kp_name kp = None) →
  name ∈ wrist_names →
  name_map keypoints !! name = None.
Proof.
  intros Hun Hin. apply eq_None_not_Some. intros [kp Hkp].
  apply name_map_lookup in Hkp as (i & Hi & Hkey & _).
  unfold kp_key in Hkey. rewrite (Hun kp) in Hkey
    by (by eapply list_elem_of_lookup_2).
  cbn in Hkey. by eapply unnamed_key_not_landmark.
Qed.

Lemma compute_wrist_heights_cases (keypoints : list (Keypoint Q)) :
  match named_y keypoints "left_shoulder", named_y keypoints "right_shoulder",
        named_y keypoints "left_wrist", named_y keypoints "right_wrist" with
  | Some lsy, Some rsy, Some lwy, Some rwy =>
      compute_wrist_heights keypoints
      = Ok (Some (mkWristHeights ((lsy + rsy) / 2 - lwy)
                    ((lsy + rsy) / 2 - rwy)
                    (((lsy + rsy) / 2 - lwy + ((lsy + rsy) / 2 - rwy)) / 2)))
  | _, _, _, _ => compute_wrist_heights keypoints = Ok None
  end.
Proof.
  unfold compute_wrist_heights, named_y, getitem, kp_gety.
  destruct (name_map keypoints !! "left_shoulder") as [ls |]; cbn; [| done].
  destruct (name_map keypoints !! "right_shoulder") as [rs |]; cbn;
    [| by destruct (kp_y ls)].
  destruct (name_map keypoints !! "left_wrist") as [lw |]; cbn;
    [| by destruct (kp_y ls), (kp_y rs)].
  destruct (name_map keypoints !! "right_wrist") as [rw |]; cbn;
    [| by destruct (kp_y ls), (kp_y rs), (kp_y lw)].
  by destruct (kp_y ls), (kp_y rs), (kp_y lw), (kp_y rw).
Qed.
(** Keypoints without names give no wrist heights. *)
Lemma compute_wrist_heights_unnamed (keypoints : list (Keypoint Q)) :
  (∀ kp, kp ∈ keypoints → kp_name kp = None) →
  compute_wrist_heights keypoints = Ok None.
Proof.
  intros Hun. pose proof (compute_wrist_heights_cases keypoints) as Hc.
  unfold named_y in Hc.
  rewrite (name_map_unnamed keypoints "left_shoulder") in Hc;
    [done | done | unfold wrist_names; set_solver].
Qed.

(** X14.  [compute_wrist_heights] never raises.  It returns heights exactly
    when the two shoulders and the two wrists are found by name and have a
    [y] coordinate (no [x] is needed and positions are not consulted); the
    average is then the shoulder midline minus the mean wrist height.  A
    list of keypoints without names gives [None]. *)
Theorem wrist_heights_by_name_only (keypoints : list (Keypoint Q)) :
  (∃ info, compute_wrist_heights keypoints = Ok info)
  ∧ (compute_wrist_heights keypoints = Ok None ↔
     ∃ name, name ∈ wrist_names ∧ named_y keypoints name = None)
  ∧ (∀ info, compute_wrist_heights keypoints = Ok (Some info) →
       ∃ lsy rsy lwy rwy,
         named_y keypoints "left_shoulder" = Some lsy
         ∧ named_y keypoints "right_shoulder" = Some rsy
         ∧ named_y keypoints "left_wrist" = Some lwy
         ∧ named_y keypoints "right_wrist" = Some rwy
         ∧ leftWristHeight info == (lsy + rsy) / 2 - lwy
         ∧ rightWristHeight info == (lsy + rsy) / 2 - rwy
         ∧ avgWristHeight info == (lsy + rsy) / 2 - (lwy + rwy) / 2)
  ∧ ((∀ kp, kp ∈ keypoints → kp_name kp = None) →
     compute_wrist_heights keypoints = Ok None).
Proof.
  pose proof (compute_wrist_heights_cases keypoints) as Hc.
  split_and!.
  - repeat case_match; by eexists.
  - split.
    + intros Hnone. unfold wrist_names.
      destruct (named_y keypoints "left_shoulder") eqn:E1;
        [| exists "left_shoulder"; split; [set_solver | done]].
      destruct (named_y keypoints "right_shoulder") eqn:E2;
        [| exists "right_shoulder"; split; [set_solver | done]].
      destruct (named_y keypoints "left_wrist") eqn:E3;
        [| exists "left_wrist"; split; [set_solver | done]].
      destruct (named_y keypoints "right_wrist") eqn:E4;
        [| exists "right_wrist"; split; [set_solver | done]].
      congruence.
    + intros (name & Hin & Hy). unfold wrist_names in Hin.
      repeat (apply elem_of_cons in Hin as [-> | Hin];
              [rewrite Hy in Hc; by repeat case_match |]).
      by apply elem_of_nil in Hin.
  - intros info Hinfo.
    destruct (named_y keypoints "left_shoulder") as [lsy |]; [| congruence].
    destruct (named_y keypoints "right_shoulder") as [rsy |]; [| congruence].
    destruct (named_y keypoints "left_wrist") as [lwy |]; [| congruence].
    destruct (named_y keypoints "right_wrist") as [rwy |]; [| congruence].
    rewrite Hc in Hinfo. injection Hinfo as <-.
    exists lsy, rsy, lwy, rwy. cbn. split_and!; try done. field.
  - apply compute_wrist_heights_unnamed.
Qed.

(** ** Keypoints without names under the peak algorithm *)

Lemma window3_elem_of h p2 p1 c :
  window3 h = Some (p2, p1, c) → p2 ∈ h ∧ p1 ∈ h ∧ c ∈ h.
Proof.
  unfold window3. destruct (rev h) as [| c' [| p1' [| p2' rest]]] eqn:E;
    try done.
  intros [= <- <- <-].
  assert (Hin : ∀ x, x ∈ rev h → x ∈ h).
  { intros x Hx. apply list_elem_of_In, in_rev, list_elem_of_In, Hx. }
  rewrite E in Hin. split_and!; apply Hin; set_solver.
Qed.

Lemma take_last_Forall {A} (P : A → Prop) n (l : list A) :
  Forall P l → Forall P (take_last n l).
Proof. unfold take_last. apply Forall_drop. Qed.

(** A call with arm height 0 on a history of zeros. *)
Lemma peak_flat_arm self i t a :
  Forall (λ x, x = 0) (arm_angle_history self) →
  arm_height_of a = 0 →
  let out := _detect_peak self i t a in
  Forall (λ x, x = 0) (arm_angle_history out.1)
  ∧ is_arm_peak out.2 = false
  ∧ detected_position out.2 ≠ Some "top".
Proof.
  intros Hflat Harm out. subst out.
  destruct (peak_histories self i t a) as [Hh _]. rewrite Harm in Hh.
  assert (Hflat' : Forall (λ x, x = 0) (arm_angle_history self ++ [0])).
  { apply Forall_app. split; [done |]. by constructor. }
  assert (Hkept : Forall (λ x, x = 0)
                    (kept (arm_angle_history self ++ [0])
                       (arm_angle_history self ++ [0]))).
  { unfold kept. destruct (10 <? _)%nat; [by apply take_last_Forall | done]. }
  split; [by rewrite Hh |].
  unfold _detect_peak. rewrite Harm. change (5 * 2)%nat with 10%nat.
  fold (kept (arm_angle_history self ++ [0]) (arm_angle_history self ++ [0]))
    in *.
  assert (Hw : ∀ w, window3 (kept (arm_angle_history self ++ [0])
                               (arm_angle_history self ++ [0])) = Some w →
               local_max w = false).
  { intros [[p2 p1] c] Hw. apply window3_elem_of in Hw as (H2 & H1 & _).
    rewrite Forall_forall in Hkept.
    apply Hkept in H2, H1. by subst. }
  unfold kept in Hw.
  destruct (10 <? length (arm_angle_history self ++ [0%Q]))%nat.
  all: cbn beta iota.
  all: repeat case_match; simplify_eq/=; try (split; [done | congruence]).
  all: exfalso;
    match goal with
    | Hw : ∀ w0, Some ?w = Some w0 → _, H : local_max ?w = true |- _ =>
        rewrite (Hw w eq_refl) in H; discriminate
    end.
Qed.

Lemma copy_if_truthy_other std key name (a : gmap string Q) k :
  k ≠ name → copy_if_truthy std key name a !! k = a !! k.
Proof.
  intros Hne. unfold copy_if_truthy. destruct (truthy _); [| done].
  by rewrite lookup_insert_ne.
Qed.

Section Unnamed.
Variable angle_math : Landmarks Q → gmap string Q.

Lemma unnamed_arm_height (keypoints : list (Keypoint Q)) :
  (∀ kp, kp ∈ keypoints → kp_name kp = None) →
  ∃ a, compute_angles_from_keypoints angle_math keypoints = Ok a
       ∧ arm_height_of a = 0.
Proof.
  intros Hun.
  pose proof (compute_wrist_heights_unnamed keypoints Hun) as Hw.
  unfold compute_angles_from_keypoints.
  destruct (compute_standard_angles_cases angle_math keypoints)
    as [(lm & _ & ->) | (k & _ & ->)]; rewrite Hw; cbn;
    (eexists; split; [done |]); unfold arm_height_of;
    by rewrite !copy_if_truthy_other, !lookup_empty.
Qed.

Lemma detect_all_flat_arm frames : ∀ self,
  algorithm self = "peak" →
  Forall (λ x, x = 0) (arm_angle_history self) →
  (∀ f kp, f ∈ frames → kp ∈ f.2 → kp_name kp = None) →
  ∃ self' rs,
    detect_all angle_math self frames = Ok (self', rs)
    ∧ ∀ r, r ∈ rs →
        is_arm_peak r = false ∧ detected_position r ≠ Some "top".
Proof.
  induction frames as [| [[i t] kps] frames IH]; intros self Halg Hflat Hun.
  - exists self, []. split; [done |]. by intros r ?%elem_of_nil.
  - cbn [detect_all].
    destruct (unnamed_arm_height kps) as (a & Ha & Harm).
    { intros kp Hkp. apply (Hun (i, t, kps)); [constructor | done]. }
    destruct (detect_peak angle_math self i t kps Halg) as (a' & Ha' & ->).
    rewrite Ha in Ha'. injection Ha' as <-. cbn.
    destruct (peak_flat_arm self i t a Hflat Harm) as (Hflat' & Hpk & Hpos).
    destruct (peak_result_fields self i t a) as (_ & _ & _ & Halg').
    destruct (IH (_detect_peak self i t a).1) as (self' & rs & -> & Hrs).
    { congruence. }
    { done. }
    { intros f kp Hf. apply Hun. by constructor. }
    cbn. eexists _, _. split; [done |]. cbn.
    intros r [-> | Hr]%elem_of_cons; [done | by apply Hrs].
Qed.

(** X15.  Keypoints that carry no names are found by position for the
    angles but never for the wrist heights, so the arm height reads 0 on
    every frame: from [reset], the peak algorithm then never flags an arm
    peak and never labels a frame "top". *)
Theorem unnamed_keypoints_never_top (self : PositionDetector)
    (frames : list (Z * Q * list (Keypoint Q))) :
  algorithm self = "peak" →
  (∀ f kp, f ∈ frames → kp ∈ f.2 → kp_name kp = None) →
  ∃ self' rs,
    detect_all angle_math (reset self) frames = Ok (self', rs)
    ∧ ∀ r, r ∈ rs →
        is_arm_peak r = false ∧ detected_position r ≠ Some "top".
Proof.
  intros Halg Hun. apply detect_all_flat_arm; [done | by constructor | done].
Qed.
End Unnamed.

Lemma unnamed_keypoints_never_top_witness :
  ∃ self' rs,
    detect_all spine_held_at_70 (reset (fresh_detector "peak"))
      [ (0%Z, 0, [mkKeypoint None (Some 1) (Some 2)]);
        (1%Z, 1 / 30, [mkKeypoint None (Some 1) (Some 5)]) ]
    = Ok (self', rs)
    ∧ ∀ r, r ∈ rs →
        is_arm_peak r = false ∧ detected_position r ≠ Some "top".
Proof.
  apply (unnamed_keypoints_never_top spine_held_at_70 (fresh_detector "peak")).
  - reflexivity.
  - intros f kp Hf Hkp.
    repeat (apply elem_of_cons in Hf as [-> | Hf];
            [cbn in Hkp; apply list_elem_of_singleton in Hkp as ->; reflexivity |]).
    by apply elem_of_nil in Hf.
Defined.

(** ** More on [calculate_angle] *)

Section AngleFacts.
Import Geometry.
Local Open Scope R_scope.

Lemma dot_le_norms (v w : Vec) : Rabs (dot v w) <= norm v * norm w.
Proof.
  unfold dot, norm. destruct v as [a b], w as [c d]. cbn [fst snd].
  rewrite <- sqrt_mult by nra.
  rewrite <- sqrt_Rsqr_abs. apply sqrt_le_1_alt. unfold Rsqr.
  pose proof (pow2_ge_0 (a * d - b * c)) as Hsq. nra.
Qed.

(** The cosine before clipping is strictly inside (-1, 1). *)
Lemma cosine_strict (v w : Vec) :
  -1 < dot v w / (norm v * norm w + eps) < 1.
Proof.
  pose proof (dot_le_norms v w) as Hcs. pose proof eps_pos as He.
  pose proof (norm_nonneg v). pose proof (norm_nonneg w).
  assert (Hd : 0 < norm v * norm w + eps) by nra.
  assert (H1 : - (norm v * norm w) <= dot v w) by (revert Hcs; unfold Rabs; destruct (Rcase_abs _); lra).
  assert (H2 : dot v w <= norm v * norm w) by (revert Hcs; unfold Rabs; destruct (Rcase_abs _); lra).
  split.
  - apply Rmult_lt_reg_r with (norm v * norm w + eps); [done |].
    unfold Rdiv. rewrite Rmult_assoc, Rinv_l by lra. lra.
  - apply Rmult_lt_reg_r with (norm v * norm w + eps); [done |].
    unfold Rdiv. rewrite Rmult_assoc, Rinv_l by lra. lra.
Qed.

Lemma calculate_angle_unclipped p1 p2 p3 :
  let v1 := (p1.1 - p2.1, p1.2 - p2.2) in
  let v2 := (p3.1 - p2.1, p3.2 - p2.2) in
  calculate_angle p1 p2 p3
  = Ok (degrees (acos (dot v1 v2 / (norm v1 * norm v2 + eps)))).
Proof.
  intros v1 v2. rewrite calculate_angle_eq. cbv zeta. fold v1 v2.
  pose proof (cosine_strict v1 v2). by rewrite clip_id by lra.
Qed.

Lemma degrees_0 : degrees 0 = 0.
Proof. unfold degrees. lra. Qed.

(** X16.  In exact arithmetic [calculate_angle] never reaches the ends of
    its range: the guard in the divisor keeps the cosine strictly inside
    (-1, 1), the clip changes nothing, and the angle is strictly between 0
    and 180 for every triple. *)
Theorem calculate_angle_open_range (p1 p2 p3 : Vec) :
  let v1 := (p1.1 - p2.1, p1.2 - p2.2) in
  let v2 := (p3.1 - p2.1, p3.2 - p2.2) in
  let c := dot v1 v2 / (norm v1 * norm v2 + eps) in
  -1 < c < 1
  ∧ clip c (-1) 1 = c
  ∧ ∃ a, calculate_angle p1 p2 p3 = Ok a ∧ 0 < a < 180.
Proof.
  intros v1 v2 c. pose proof (cosine_strict v1 v2) as Hc. fold c in Hc.
  split; [done |]. split; [apply clip_id; lra |].
  rewrite calculate_angle_unclipped. cbv zeta. fold v1 v2 c.
  eexists. split; [done |].
  destruct (acos_bound_lt c Hc) as [H0 H1].
  rewrite <- degrees_0, <- degrees_pi. split; by apply degrees_lt.
Qed.

(** X17.  [calculate_angle] does not depend on the order of the two arms
    nor on where the triple lies: swapping [p1] and [p3], or shifting all
    three points by the same offset, gives the same angle. *)
Theorem calculate_angle_symmetric (p1 p2 p3 d : Vec) :
  calculate_angle p3 p2 p1 = calculate_angle p1 p2 p3
  ∧ calculate_angle (p1.1 + d.1, p1.2 + d.2) (p2.1 + d.1, p2.2 + d.2)
      (p3.1 + d.1, p3.2 + d.2)
    = calculate_angle p1 p2 p3.
Proof.
  split.
  - rewrite !calculate_angle_eq. cbv zeta. do 4 f_equal. unfold dot.
    cbn [fst snd]. f_equal; [ring |]. f_equal. ring.
  - rewrite !calculate_angle_eq. cbv zeta. cbn [fst snd].
    replace (p1.1 + d.1 - (p2.1 + d.1)) with (p1.1 - p2.1) by ring.
    replace (p1.2 + d.2 - (p2.2 + d.2)) with (p1.2 - p2.2) by ring.
    replace (p3.1 + d.1 - (p2.1 + d.1)) with (p3.1 - p2.1) by ring.
    replace (p3.2 + d.2 - (p2.2 + d.2)) with (p3.2 - p2.2) by ring.
    done.
Qed.

Lemma degrees_inj a b : degrees a = degrees b → a = b.
Proof.
  unfold degrees. intros H. pose proof PI_RGT_0.
  assert (Hk : 180 / PI ≠ 0).
  { apply Rgt_not_eq. apply Rdiv_lt_0_compat; lra. }
  by apply Rmult_eq_reg_r in H.
Qed.

(** X18.  [calculate_angle] returns exactly 90 when, and only when, the
    dot product of the two arms is 0: the arms are perpendicular, or one of
    them has length 0. *)
Theorem calculate_angle_right (p1 p2 p3 : Vec) :
  calculate_angle p1 p2 p3 = Ok 90 ↔
  dot (p1.1 - p2.1, p1.2 - p2.2) (p3.1 - p2.1, p3.2 - p2.2) = 0.
Proof.
  rewrite calculate_angle_unclipped. cbv zeta.
  set (v1 := (p1.1 - p2.1, p1.2 - p2.2)). set (v2 := (p3.1 - p2.1, p3.2 - p2.2)).
  pose proof (cosine_strict v1 v2) as Hc.
  pose proof (norm_nonneg v1). pose proof (norm_nonneg v2).
  pose proof eps_pos.
  assert (Hd : 0 < norm v1 * norm v2 + eps) by nra.
  split.
  - intros [= Ha]. rewrite <- degrees_half_pi in Ha.
    apply degrees_inj in Ha.
    assert (Hcos : cos (acos (dot v1 v2 / (norm v1 * norm v2 + eps))) = 0)
      by (rewrite Ha; apply cos_PI2).
    rewrite cos_acos in Hcos by lra.
    apply (Rmult_eq_compat_r (norm v1 * norm v2 + eps)) in Hcos.
    unfold Rdiv in Hcos. rewrite Rmult_assoc, Rinv_l in Hcos by lra. lra.
  - intros ->. unfold Rdiv. rewrite Rmult_0_l, acos_0, degrees_half_pi. done.
Qed.
End AngleFacts.
